(** * esrp: the SRP-6a value type and calculation engine

    A shallow embedding of [value/value.go], [engine/engine.go] and
    [engine/standard.go], together with the parts of Go's [encoding/hex],
    [fmt] and [math/big] that this code calls.

    - Go [string] is [string] (a sequence of 8-bit characters), [[]byte] is
      [list byte], [*big.Int] is [Z] ([option Z] where a nil pointer can be
      passed).
    - A Go call either returns, or ends the process ([log.Fatal]), or
      panics; this is the type [outcome]. *)

From Stdlib Require Import ZArith NArith List Bool Lia.
From Stdlib.Strings Require Import String Ascii Byte.
From Stdlib Require Import Zpow_facts.
Import ListNotations.
Local Open Scope Z_scope.

(* ------------------------------------------------------------------ *)
(** ** Outcomes of a call                                               *)
(* ------------------------------------------------------------------ *)

(** The two errors of [encoding/hex]. *)
Inductive hexError : Type :=
| InvalidByteError (c : ascii)
| ErrLength.

Inductive panic : Type :=
| DivisionByZero
| NilDereference.

(** [Return a]: the call hands [a] back to its caller.
    [Fatal e]: [log.Fatal(e)] ran: the error is logged and the process is
    ended with [os.Exit(1)]; the caller never gets control back.
    [Panic p]: a run-time panic. *)
Inductive outcome (A : Type) : Type :=
| Return (a : A)
| Fatal (e : hexError)
| Panic (p : panic).

Arguments Return {A} a.
Arguments Fatal {A} e.
Arguments Panic {A} p.

Definition bind {A B : Type} (m : outcome A) (k : A -> outcome B) : outcome B :=
  match m with
  | Return a => k a
  | Fatal e => Fatal e
  | Panic p => Panic p
  end.

Notation "x <- m ;; k" := (bind m (fun x => k))
  (at level 61, m at next level, right associativity).

(** The caller of the call is still running afterwards. *)
Definition returns_to_caller {A : Type} (o : outcome A) : Prop :=
  match o with
  | Return _ => True
  | Fatal _ | Panic _ => False
  end.

(* ------------------------------------------------------------------ *)
(** ** encoding/hex and the [%x] verb of fmt                            *)
(* ------------------------------------------------------------------ *)

Module Hex.

(** [hextable = "0123456789abcdef"]. *)
Definition hextable : string := "0123456789abcdef".

Definition hexdigit (n : N) : ascii :=
  match String.get (N.to_nat n) hextable with
  | Some c => c
  | None => "0"%char
  end.

(** [reverseHexTable]: the value of a hexadecimal digit of either case,
    [None] where the table holds [0xff]. *)
Definition fromHexChar (c : ascii) : option N :=
  let n := N_of_ascii c in
  if (48 <=? n)%N && (n <=? 57)%N then Some (n - 48)%N
  else if (97 <=? n)%N && (n <=? 102)%N then Some (n - 87)%N
  else if (65 <=? n)%N && (n <=? 70)%N then Some (n - 55)%N
  else None.

(** The byte with value [n], for [n <= 255]. *)
Definition byte_of_N (n : N) : byte :=
  match Byte.of_N n with
  | Some b => b
  | None => x00
  end.

(** Two lowercase digits for one byte. *)
Definition EncodeByte (b : byte) (rest : string) : string :=
  let n := Byte.to_N b in
  String (hexdigit (N.shiftr n 4)) (String (hexdigit (N.land n 15)) rest).

(** [hex.EncodeToString], which is also what [%x] prints for a byte
    slice. *)
Definition EncodeToString (bs : list byte) : string :=
  fold_right EncodeByte EmptyString bs.

(** [fmt.Sprintf("%x", s)] for a string [s]: two lowercase digits per
    byte of [s]. *)
Definition Sprintf_x (s : string) : string :=
  EncodeToString (list_byte_of_string s).

(** [hex.Decode]: pairs are decoded from the left; the first character
    that is no digit gives [InvalidByteError]; a trailing single digit
    gives [ErrLength]. The bytes decoded before the error are returned
    with it. *)
Fixpoint Decode (src : string) : list byte * option hexError :=
  match src with
  | EmptyString => ([], None)
  | String p EmptyString =>
      match fromHexChar p with
      | None => ([], Some (InvalidByteError p))
      | Some _ => ([], Some ErrLength)
      end
  | String p (String q rest) =>
      match fromHexChar p with
      | None => ([], Some (InvalidByteError p))
      | Some a =>
          match fromHexChar q with
          | None => ([], Some (InvalidByteError q))
          | Some b =>
              let (bs, err) := Decode rest in
              (byte_of_N (N.lor (N.shiftl a 4) b) :: bs, err)
          end
      end
  end.

Definition DecodeString (s : string) : list byte * option hexError :=
  Decode s.

End Hex.

(* ------------------------------------------------------------------ *)
(** ** math/big                                                         *)
(* ------------------------------------------------------------------ *)

Module Big.

(** [SetBytes]: the bytes read as an unsigned big-endian number. *)
Definition SetBytes (bs : list byte) : Z :=
  fold_left (fun acc b => acc * 256 + Z.of_N (Byte.to_N b)) bs 0.

(** Little-endian digits of [n] in base 256, none for 0. *)
Fixpoint le_bytes (fuel : nat) (n : N) : list byte :=
  match fuel with
  | O => []
  | S f =>
      if (n =? 0)%N then []
      else Hex.byte_of_N (n mod 256)%N :: le_bytes f (n / 256)%N
  end.

(** [x.Bytes()]: the absolute value of [x] as a big-endian byte slice,
    without leading zero bytes (empty for 0). *)
Definition Bytes (x : Z) : list byte :=
  let n := Z.abs_N x in
  rev (le_bytes (N.to_nat (N.size n)) n).

(** [z.Mod(x, y)]: Euclidean modulus, a division-by-zero panic for
    [y = 0]. *)
Definition Mod (x y : Z) : outcome Z :=
  if y =? 0 then Panic DivisionByZero else Return (x mod Z.abs y).

(** [z.ModInverse(g, n)] for [n <> 0]: the inverse of [g] in the ring of
    integers modulo [|n|], in the range [0 <= z < |n|]; nil when [g] and
    [n] are not relatively prime. *)
Definition ModInverse (g n : Z) : option Z :=
  let m := Z.abs n in
  find (fun z => (g * z) mod m =? 1 mod m)
       (map Z.of_nat (seq 0 (Z.to_nat m))).

(** [nat.expNN] on magnitudes: [x**y mod m], or [x**y] for [m = 0]. *)
Definition expNN (x y m : Z) : Z :=
  if m =? 0 then x ^ y else (x ^ y) mod m.

(** [z.Exp(x, y, m)] = [x**y mod |m|].  For [m = 0] the result is
    [x**y], and 1 when [y <= 0].  For [y < 0] and [m <> 0] the base is
    replaced by its inverse modulo [m], and nil is returned when there is
    none.  The power is computed on magnitudes; a negative result (base
    negative, exponent odd) is made positive by subtracting it from the
    modulus. *)
Definition Exp (x y m : Z) : option Z :=
  if (y <? 0) && (m =? 0) then Some 1
  else
    match (if y <? 0 then ModInverse x m else Some (Z.abs x)) with
    | None => None
    | Some xWords =>
        let yWords := Z.abs y in
        let mWords := Z.abs m in
        let zabs := expNN xWords yWords mWords in
        let neg := negb (zabs =? 0) && (x <? 0) && Z.odd yWords in
        if neg && negb (mWords =? 0) then Some (mWords - zabs)
        else Some (if neg then - zabs else zabs)
    end.

End Big.

(* ------------------------------------------------------------------ *)
(** ** value/value.go                                                   *)
(* ------------------------------------------------------------------ *)

(** What a caller can pass for the [interface{}] argument of [New]: a
    string, a byte slice, a [*big.Int] (possibly nil), or a value of any
    other type. *)
Inductive arg : Type :=
| ArgString (s : string)
| ArgBytes (b : list byte)
| ArgInt (i : option Z)
| ArgOther.

Module Value.

Record Value : Type := mkValue {
  bytes : list byte;
  hex : string;
  int : Z
}.

(** [New]: the hex string is fixed first (a string argument is taken as
    it is, bytes and integers are printed with [%x]), then decoded;
    a decoding error ends in [log.Fatal]. *)
Definition New (a : arg) : outcome Value :=
  h <- match a with
       | ArgString v => Return v
       | ArgBytes v => Return (Hex.Sprintf_x (string_of_list_byte v))
       | ArgInt (Some v) =>
           Return (Hex.Sprintf_x (string_of_list_byte (Big.Bytes v)))
       | ArgInt None => Panic NilDereference
       | ArgOther => Return EmptyString
       end ;;
  match Hex.DecodeString h with
  | (_, Some err) => Fatal err
  | (buff, None) =>
      Return {| bytes := buff; hex := h; int := Big.SetBytes buff |}
  end.

Definition Bytes (v : Value) : list byte := bytes v.
Definition Hex (v : Value) : string := hex v.
Definition Int (v : Value) : Z := int v.

End Value.

(** The second [New] found in the sources (the listing that follows the
    tests of the value package): the bytes are fixed first, the hex string
    is printed from them, and an integer argument is stored as it is. *)
Module ValueAlt.

Record Value : Type := mkValue {
  bytes : list byte;
  hex : string;
  int : Z
}.

Definition New (a : arg) : outcome Value :=
  st <- match a with
        | ArgBytes v => Return (v, None)
        | ArgString v =>
            match Hex.DecodeString v with
            | (_, Some err) => Fatal err
            | (buff, None) => Return (buff, None)
            end
        | ArgInt (Some v) => Return (Big.Bytes v, Some v)
        | ArgInt None => Panic NilDereference
        | ArgOther => Return ([], None)
        end ;;
  let '(bs, i) := st in
  Return {| bytes := bs;
            hex := Hex.EncodeToString bs;
            int := match i with
                   | Some v => v
                   | None => Big.SetBytes bs
                   end |}.

End ValueAlt.

(* ------------------------------------------------------------------ *)
(** ** The collaborators of the engine                                  *)
(* ------------------------------------------------------------------ *)

Import Value.

(** Modelled from the spec: the [Crypto] interface of package [crypto],
    whose declaration is not among the sources.  The engine calls [H] (a
    digest of any number of values), [PasswordHash(salt, password)] and
    [KeyedHash(key, message)]; each returns a Value. *)
Record Crypto : Type := mkCrypto {
  H : list Value -> Value;
  PasswordHash : Value -> string -> Value;
  KeyedHash : Value -> Value -> Value
}.

(** Modelled from the spec: the [Group] struct of package [group], whose
    declaration is not among the sources; [engine.New] reads its fields
    [N] and [G]. *)
Record Group : Type := mkGroup {
  group_N : Value;
  group_G : Value
}.

(* ------------------------------------------------------------------ *)
(** ** engine/engine.go and engine/standard.go                          *)
(* ------------------------------------------------------------------ *)

Module Engine.

Record Engine : Type := mkEngine {
  crypto : Crypto;
  N : Value;
  G : Value;
  k : Value
}.

Definition New (c : Crypto) (group : Group) : Engine :=
  {| crypto := c;
     N := group_N group;
     G := group_G group;
     k := H c [group_N group; group_G group] |}.

(** [K], together with the digests it asks of the Crypto while it runs
    (the argument list of each call of [H], in order). *)
Definition K_logged (e : Engine) : Value * list (list Value) :=
  if String.eqb (Value.Hex (k e)) EmptyString
  then (H (crypto e) [N e; G e], [[N e; G e]])
  else (k e, []).

Definition K (e : Engine) : Value := fst (K_logged e).

Definition modExp (e : Engine) (a b : Value) : outcome Value :=
  Value.New (ArgInt (Big.Exp (Int a) (Int b) (Int (N e)))).

Definition CalcV (e : Engine) (x : Value) : outcome Value :=
  modExp e (G e) x.

Definition CalcA (e : Engine) (a : Value) : outcome Value :=
  modExp e (G e) a.

Definition CalcB (e : Engine) (b val : Value) : outcome Value :=
  let mul := Int (k e) * Int val in
  gb <- modExp e (G e) b ;;
  let res := mul + Int gb in
  r <- Big.Mod res (Int (N e)) ;;
  Value.New (ArgInt (Some r)).

Definition CalcU (e : Engine) (aa bb : Value) : Value :=
  H (crypto e) [aa; bb].

Definition CalcClientS (e : Engine) (bb a x u : Value) : outcome Value :=
  gx <- modExp e (G e) x ;;
  let mul := Int (k e) * Int gx in
  let left := Int bb - mul in
  let right := Int a + Int u * Int x in
  l <- Value.New (ArgInt (Some left)) ;;
  r <- Value.New (ArgInt (Some right)) ;;
  modExp e l r.

Definition CalcServerS (e : Engine) (aa b val u : Value) : outcome Value :=
  vu <- modExp e val u ;;
  let left := Int aa * Int vu in
  l <- Value.New (ArgInt (Some left)) ;;
  modExp e l b.

Definition CalcK (e : Engine) (ss : Value) : Value :=
  H (crypto e) [ss].

End Engine.

Module Standard.

Import Engine.

(** [Standard] embeds [Engine]; its methods read the engine's
    [crypto]. *)
Definition CalcX (e : Engine) (password salt : string) : outcome Value :=
  s <- Value.New (ArgString salt) ;;
  Return (PasswordHash (crypto e) s password).

Definition CalcM (e : Engine) (kk aa bb ss salt : Value)
    (username : string) : outcome Value :=
  let val := Int aa + Int salt in
  let val := val + Int bb in
  m <- Value.New (ArgInt (Some val)) ;;
  Return (KeyedHash (crypto e) kk m).

Definition CalcM2 (e : Engine) (kk aa mm _ss : Value) : outcome Value :=
  let val := Int aa + Int mm in
  m <- Value.New (ArgInt (Some val)) ;;
  Return (KeyedHash (crypto e) kk m).

End Standard.

(* ------------------------------------------------------------------ *)
(** ** Vocabulary of the properties                                     *)
(* ------------------------------------------------------------------ *)

(** A hex string is well formed when its length is even and each of its
    characters is a hexadecimal digit; it is malformed otherwise. *)
Definition is_hex_char (c : ascii) : bool :=
  match Hex.fromHexChar c with
  | Some _ => true
  | None => false
  end.

Definition well_formed_hex (s : string) : bool :=
  Nat.even (String.length s) && forallb is_hex_char (list_ascii_of_string s).

(** [bs] is a minimal big-endian encoding of [z]: it denotes [z] and no
    shorter byte sequence does. *)
Definition minimal_big_endian (z : Z) (bs : list byte) : Prop :=
  Big.SetBytes bs = z /\
  forall bs', Big.SetBytes bs' = z -> (List.length bs <= List.length bs')%nat.

(** Values that [Value.New] can return. *)
Definition constructed (v : Value) : Prop :=
  exists a, Value.New a = Return v.

(* ------------------------------------------------------------------ *)
(** ** Fixtures: a small group and a Crypto instance                    *)
(* ------------------------------------------------------------------ *)

(** The Value of an integer, as [Value.New] builds it. *)
Definition valueOfInt (z : Z) : Value :=
  match Value.New (ArgInt (Some z)) with
  | Return v => v
  | _ => {| bytes := []; hex := EmptyString; int := 0 |}
  end.

(** A Crypto instance whose digest is always the empty Value. *)
Definition emptyCrypto : Crypto :=
  {| H := fun _ => {| bytes := []; hex := EmptyString; int := 0 |};
     PasswordHash := fun _ _ => {| bytes := []; hex := EmptyString; int := 0 |};
     KeyedHash := fun _ _ => {| bytes := []; hex := EmptyString; int := 0 |} |}.

(** A Crypto instance whose digests add up the integers of their
    arguments.  Any implementation of the interface can be plugged into the
    engine; this one keeps the figures small. *)
Definition sumCrypto : Crypto :=
  {| H := fun vs => valueOfInt (fold_right (fun v acc => Int v + acc) 0 vs);
     PasswordHash := fun salt pw =>
       valueOfInt (Int salt + Z.of_nat (String.length pw));
     KeyedHash := fun key msg => valueOfInt (Int key + Int msg) |}.

(** N = 23 = 2 * 11 + 1 is a safe prime and 5 generates its
    multiplicative group. *)
Definition group23 : Group :=
  {| group_N := valueOfInt 23; group_G := valueOfInt 5 |}.

Definition engine23 : Engine.Engine := Engine.New sumCrypto group23.

(* ------------------------------------------------------------------ *)
(** ** engine/engine.go on the second Value                             *)
(* ------------------------------------------------------------------ *)

(** The engine's arithmetic as it runs when package [value] is the second
    listing: the same code, with [v.New] and [Int()] those of
    [ValueAlt]. *)
Module EngineAlt.

(** Modelled from the spec: the [Crypto] interface, over the second
    Value. *)
Record Crypto : Type := mkCrypto {
  H : list ValueAlt.Value -> ValueAlt.Value;
  PasswordHash : ValueAlt.Value -> string -> ValueAlt.Value;
  KeyedHash : ValueAlt.Value -> ValueAlt.Value -> ValueAlt.Value
}.

Record Engine : Type := mkEngine {
  crypto : Crypto;
  N : ValueAlt.Value;
  G : ValueAlt.Value;
  k : ValueAlt.Value
}.

Definition modExp (e : Engine) (a b : ValueAlt.Value)
    : outcome ValueAlt.Value :=
  ValueAlt.New
    (ArgInt (Big.Exp (ValueAlt.int a) (ValueAlt.int b) (ValueAlt.int (N e)))).

Definition CalcV (e : Engine) (x : ValueAlt.Value) : outcome ValueAlt.Value :=
  modExp e (G e) x.

Definition CalcA (e : Engine) (a : ValueAlt.Value) : outcome ValueAlt.Value :=
  modExp e (G e) a.

Definition CalcB (e : Engine) (b val : ValueAlt.Value)
    : outcome ValueAlt.Value :=
  let mul := ValueAlt.int (k e) * ValueAlt.int val in
  gb <- modExp e (G e) b ;;
  let res := mul + ValueAlt.int gb in
  r <- Big.Mod res (ValueAlt.int (N e)) ;;
  ValueAlt.New (ArgInt (Some r)).

Definition CalcClientS (e : Engine) (bb a x u : ValueAlt.Value)
    : outcome ValueAlt.Value :=
  gx <- modExp e (G e) x ;;
  let mul := ValueAlt.int (k e) * ValueAlt.int gx in
  let left := ValueAlt.int bb - mul in
  let right := ValueAlt.int a + ValueAlt.int u * ValueAlt.int x in
  l <- ValueAlt.New (ArgInt (Some left)) ;;
  r <- ValueAlt.New (ArgInt (Some right)) ;;
  modExp e l r.

Definition CalcServerS (e : Engine) (aa b val u : ValueAlt.Value)
    : outcome ValueAlt.Value :=
  vu <- modExp e val u ;;
  let left := ValueAlt.int aa * ValueAlt.int vu in
  l <- ValueAlt.New (ArgInt (Some left)) ;;
  modExp e l b.

End EngineAlt.

(** The second Value of an integer, as [ValueAlt.New] builds it. *)
Definition altOfInt (z : Z) : ValueAlt.Value :=
  {| ValueAlt.bytes := Big.Bytes z;
     ValueAlt.hex := Hex.EncodeToString (Big.Bytes z);
     ValueAlt.int := z |}.

(** The group N = 23, G = 5 with the multiplier 28, on the second
    Value. *)
Definition engineAlt23 : EngineAlt.Engine :=
  {| EngineAlt.crypto :=
       {| EngineAlt.H := fun _ => altOfInt 28;
          EngineAlt.PasswordHash := fun _ _ => altOfInt 6;
          EngineAlt.KeyedHash := fun _ _ => altOfInt 0 |};
     EngineAlt.N := altOfInt 23;
     EngineAlt.G := altOfInt 5;
     EngineAlt.k := altOfInt 28 |}.

(* ------------------------------------------------------------------ *)
(** ** Further vocabulary                                               *)
(* ------------------------------------------------------------------ *)

(** A character with an upper-case ASCII letter turned into the
    lower-case one. *)
Definition lower_char (c : ascii) : ascii :=
  let n := N_of_ascii c in
  if (65 <=? n)%N && (n <=? 90)%N then ascii_of_N (n + 32) else c.

(** A string with its upper-case ASCII letters turned into lower-case
    ones. *)
Fixpoint ToLower (s : string) : string :=
  match s with
  | EmptyString => EmptyString
  | String c r => String (lower_char c) (ToLower r)
  end.

(** The first character of a string that is no hexadecimal digit. *)
Definition first_invalid (s : string) : option ascii :=
  find (fun c => negb (is_hex_char c)) (list_ascii_of_string s).

(* ================================================================== *)
(** * Properties                                                        *)
(* ================================================================== *)

(* ------------------------------------------------------------------ *)
(** ** Hex encoding and decoding                                        *)
(* ------------------------------------------------------------------ *)

Section HexFacts.

Import Hex.

Lemma fromHexChar_high (b : byte) :
  fromHexChar (hexdigit (N.shiftr (Byte.to_N b) 4))
  = Some (N.shiftr (Byte.to_N b) 4).
Proof. destruct b; reflexivity. Qed.

Lemma fromHexChar_low (b : byte) :
  fromHexChar (hexdigit (N.land (Byte.to_N b) 15))
  = Some (N.land (Byte.to_N b) 15).
Proof. destruct b; reflexivity. Qed.

Lemma nibbles_join (b : byte) :
  byte_of_N (N.lor (N.shiftl (N.shiftr (Byte.to_N b) 4) 4)
                   (N.land (Byte.to_N b) 15)) = b.
Proof. destruct b; reflexivity. Qed.

Lemma Decode_pair (p q : ascii) (rest : string) (a b : N) :
  fromHexChar p = Some a ->
  fromHexChar q = Some b ->
  Decode (String p (String q rest))
  = (byte_of_N (N.lor (N.shiftl a 4) b) :: fst (Decode rest),
     snd (Decode rest)).
Proof.
  intros Hp Hq. cbn [Decode]. rewrite Hp, Hq.
  destruct (Decode rest); reflexivity.
Qed.

Lemma Decode_EncodeByte (b : byte) (rest : string) :
  Decode (EncodeByte b rest) = (b :: fst (Decode rest), snd (Decode rest)).
Proof.
  unfold EncodeByte.
  rewrite (Decode_pair _ _ rest _ _ (fromHexChar_high b) (fromHexChar_low b)).
  now rewrite nibbles_join.
Qed.

(** Decoding what [%x] printed gives the bytes back, without error. *)
Lemma Decode_EncodeToString (bs : list byte) :
  DecodeString (EncodeToString bs) = (bs, None).
Proof.
  unfold DecodeString.
  induction bs as [|b bs IH]; [reflexivity|].
  cbn [EncodeToString fold_right]. rewrite Decode_EncodeByte.
  fold (EncodeToString bs). now rewrite IH.
Qed.

Lemma Sprintf_x_bytes (bs : list byte) :
  Sprintf_x (string_of_list_byte bs) = EncodeToString bs.
Proof.
  unfold Sprintf_x. now rewrite list_byte_of_string_of_list_byte.
Qed.

(** Induction over a string two characters at a time. *)
Lemma string_pair_ind (P : string -> Prop) :
  P EmptyString ->
  (forall c, P (String c EmptyString)) ->
  (forall c d s, P s -> P (String c (String d s))) ->
  forall s, P s.
Proof.
  intros H0 H1 H2.
  fix IH 1. intros [|c [|d s]]; [exact H0 | exact (H1 c) |].
  apply H2, IH.
Qed.

(** [Decode] reports an error exactly on the malformed strings. *)
Lemma Decode_error_iff (s : string) :
  snd (Decode s) = None <-> well_formed_hex s = true.
Proof.
  unfold well_formed_hex.
  induction s as [|c|c d s IH] using string_pair_ind.
  - cbn. tauto.
  - cbn. destruct (fromHexChar c); cbn; split; discriminate.
  - cbn [Decode String.length Nat.even list_ascii_of_string forallb].
    unfold is_hex_char at 1 2.
    destruct (fromHexChar c); cbn [snd andb].
    + destruct (fromHexChar d); cbn [snd andb].
      * destruct (Decode s) as [bs err]. cbn [snd] in *. exact IH.
      * rewrite andb_false_r. split; discriminate.
    + rewrite andb_false_r. split; discriminate.
Qed.

End HexFacts.

(* ------------------------------------------------------------------ *)
(** ** Big integers and their bytes                                     *)
(* ------------------------------------------------------------------ *)

Section BigFacts.

Import Big.

Lemma byte_of_N_value (n : N) :
  (n < 256)%N -> Byte.to_N (Hex.byte_of_N n) = n.
Proof.
  intros Hn. unfold Hex.byte_of_N.
  destruct (Byte.of_N n) as [b|] eqn:E.
  - now apply Byte.to_of_N.
  - apply Byte.of_N_None_iff in E. lia.
Qed.

Lemma SetBytes_snoc (bs : list byte) (b : byte) :
  SetBytes (bs ++ [b]) = SetBytes bs * 256 + Z.of_N (Byte.to_N b).
Proof. unfold SetBytes. now rewrite fold_left_app. Qed.

Lemma SetBytes_range (bs : list byte) :
  0 <= SetBytes bs < 256 ^ Z.of_nat (List.length bs).
Proof.
  induction bs as [|b bs IH] using rev_ind.
  - cbn. lia.
  - rewrite SetBytes_snoc, length_app, Nat2Z.inj_add, Z.pow_add_r by lia.
    cbn [List.length]. change (256 ^ Z.of_nat 1) with 256.
    pose proof (Byte.to_N_bounded b). lia.
Qed.

Lemma SetBytes_nonneg (bs : list byte) : 0 <= SetBytes bs.
Proof. apply SetBytes_range. Qed.

Lemma fuel_step (f : nat) (n : N) :
  (n < 2 ^ N.of_nat (S f))%N -> (n / 256 < 2 ^ N.of_nat f)%N.
Proof.
  intros Hn. apply N.Div0.div_lt_upper_bound.
  rewrite Nat2N.inj_succ, N.pow_succ_r' in Hn. lia.
Qed.

(** With fuel for every bit of [n], the digits denote [n]. *)
Lemma le_bytes_value (fuel : nat) :
  forall n, (n < 2 ^ N.of_nat fuel)%N ->
    SetBytes (rev (le_bytes fuel n)) = Z.of_N n.
Proof.
  induction fuel as [|f IH]; intros n Hn.
  - cbn in *. assert (n = 0%N) by lia. now subst.
  - cbn [le_bytes]. destruct (N.eqb_spec n 0) as [->|Hz]; [reflexivity|].
    cbn [rev]. rewrite SetBytes_snoc, IH by now apply fuel_step.
    rewrite byte_of_N_value by (apply N.mod_lt; lia).
    rewrite (N.div_mod n 256) at 3 by lia. lia.
Qed.

(** The most significant digit is not zero: the digits of a positive
    [n] reach up to [n]. *)
Lemma le_bytes_length (fuel : nat) :
  forall n, (n < 2 ^ N.of_nat fuel)%N -> n <> 0%N ->
    (256 ^ N.of_nat (List.length (le_bytes fuel n)) <= 256 * n)%N.
Proof.
  induction fuel as [|f IH]; intros n Hn Hz.
  - cbn in Hn. lia.
  - cbn [le_bytes]. destruct (N.eqb_spec n 0) as [|_]; [contradiction|].
    cbn [List.length]. rewrite Nat2N.inj_succ, N.pow_succ_r'.
    destruct (N.eq_dec (n / 256) 0) as [E|E].
    + rewrite E.
      replace (le_bytes f 0) with (@nil byte) by (destruct f; reflexivity).
      cbn [List.length]. rewrite N.pow_0_r. lia.
    + specialize (IH _ (fuel_step _ _ Hn) E).
      pose proof (N.Div0.mul_div_le n 256). lia.
Qed.

Lemma size_fuel (n : N) : (n < 2 ^ N.of_nat (N.to_nat (N.size n)))%N.
Proof. rewrite N2Nat.id. apply N.size_gt. Qed.

(** [SetBytes] undoes [Bytes] up to the sign, which [Bytes] drops. *)
Lemma SetBytes_Bytes (z : Z) : SetBytes (Bytes z) = Z.abs z.
Proof.
  unfold Bytes. rewrite le_bytes_value by apply size_fuel. lia.
Qed.

Lemma Bytes_zero : Bytes 0 = [].
Proof. reflexivity. Qed.

(** [Bytes] is the shortest encoding of the magnitude. *)
Lemma Bytes_minimal (z : Z) : minimal_big_endian (Z.abs z) (Bytes z).
Proof.
  split; [apply SetBytes_Bytes|].
  intros bs' Hbs'. unfold Bytes. rewrite length_rev.
  set (n := Z.abs_N z) in *.
  destruct (N.eq_dec n 0) as [E|E].
  - rewrite E. cbn. lia.
  - pose proof (le_bytes_length _ _ (size_fuel n) E) as Hlen.
    pose proof (SetBytes_range bs') as Hr. rewrite Hbs' in Hr.
    set (l := List.length (le_bytes (N.to_nat (N.size n)) n)) in *.
    destruct (Nat.le_gt_cases l (List.length bs')) as [|Hlt]; [assumption|].
    exfalso.
    assert (Hpow : 256 ^ Z.of_nat (S (List.length bs')) <= 256 ^ Z.of_nat l)
      by (apply Z.pow_le_mono_r; lia).
    rewrite Nat2Z.inj_succ, Z.pow_succ_r in Hpow by lia.
    assert (Hz : Z.of_N (256 ^ N.of_nat l) <= Z.of_N (256 * n)) by lia.
    rewrite N2Z.inj_pow, N2Z.inj_mul, nat_N_Z in Hz.
    change (Z.of_N 256) with 256 in Hz.
    assert (Z.of_N n = Z.abs z) by (subst n; lia).
    lia.
Qed.

End BigFacts.

(* ------------------------------------------------------------------ *)
(** ** value.New                                                        *)
(* ------------------------------------------------------------------ *)

Section ValueFacts.

Lemma New_bytes (bs : list byte) :
  Value.New (ArgBytes bs)
  = Return {| bytes := bs;
              hex := Hex.EncodeToString bs;
              int := Big.SetBytes bs |}.
Proof.
  unfold Value.New. cbn [bind].
  now rewrite Sprintf_x_bytes, Decode_EncodeToString.
Qed.

(** An integer argument is stored by its magnitude. *)
Lemma New_int (z : Z) :
  Value.New (ArgInt (Some z))
  = Return {| bytes := Big.Bytes z;
              hex := Hex.EncodeToString (Big.Bytes z);
              int := Z.abs z |}.
Proof.
  unfold Value.New. cbn [bind].
  now rewrite Sprintf_x_bytes, Decode_EncodeToString, SetBytes_Bytes.
Qed.

Lemma New_other :
  Value.New ArgOther
  = Return {| bytes := []; hex := EmptyString; int := 0 |}.
Proof. reflexivity. Qed.

(** A string argument is kept as the hex string, whatever its case. *)
Lemma New_string (s : string) :
  well_formed_hex s = true ->
  Value.New (ArgString s)
  = Return {| bytes := fst (Hex.Decode s);
              hex := s;
              int := Big.SetBytes (fst (Hex.Decode s)) |}.
Proof.
  intros Hs. apply Decode_error_iff in Hs.
  unfold Value.New, Hex.DecodeString. cbn [bind].
  destruct (Hex.Decode s) as [buff err]. cbn [fst snd] in *.
  now subst err.
Qed.

Lemma New_string_malformed (s : string) :
  well_formed_hex s = false ->
  exists err, snd (Hex.Decode s) = Some err
              /\ Value.New (ArgString s) = Fatal err.
Proof.
  intros Hs. unfold Value.New, Hex.DecodeString. cbn [bind].
  destruct (Hex.Decode s) as [buff [err|]] eqn:E.
  - now exists err.
  - exfalso. assert (Hn : snd (Hex.Decode s) = None) by now rewrite E.
    apply Decode_error_iff in Hn. congruence.
Qed.

(** Whatever the argument, the integer of a constructed Value is read
    off its bytes. *)
Lemma New_int_of_bytes (a : arg) (v : Value) :
  Value.New a = Return v -> int v = Big.SetBytes (bytes v).
Proof.
  unfold Value.New.
  destruct a as [s|bs|[z|]|]; cbn [bind];
    try discriminate;
    match goal with
    | |- context [Hex.DecodeString ?h] =>
        destruct (Hex.DecodeString h) as [buff [err|]]
    end; intros Hv; inversion Hv; reflexivity.
Qed.

Lemma constructed_nonneg (v : Value) : constructed v -> 0 <= Int v.
Proof.
  intros [a Ha]. unfold Int. rewrite (New_int_of_bytes a v Ha).
  apply SetBytes_nonneg.
Qed.

Lemma valueOfInt_eq (z : Z) :
  valueOfInt z = {| bytes := Big.Bytes z;
                    hex := Hex.EncodeToString (Big.Bytes z);
                    int := Z.abs z |}.
Proof. unfold valueOfInt. now rewrite New_int. Qed.

Lemma valueOfInt_constructed (z : Z) : constructed (valueOfInt z).
Proof.
  exists (ArgInt (Some z)). now rewrite New_int, valueOfInt_eq.
Qed.

(** The second [New]: the hex string is always printed from the bytes,
    and an integer argument keeps its sign. *)
Lemma ValueAlt_New_canonical (a : arg) (v : ValueAlt.Value) :
  ValueAlt.New a = Return v ->
  ValueAlt.hex v = Hex.EncodeToString (ValueAlt.bytes v).
Proof.
  unfold ValueAlt.New.
  destruct a as [s|bs|[z|]|]; cbn [bind]; try discriminate;
    try (intros Hv; inversion Hv; reflexivity).
  destruct (Hex.DecodeString s) as [buff [err|]]; cbn [bind];
    [discriminate|].
  intros Hv; inversion Hv; reflexivity.
Qed.

Lemma ValueAlt_New_int (z : Z) :
  ValueAlt.New (ArgInt (Some z))
  = Return {| ValueAlt.bytes := Big.Bytes z;
              ValueAlt.hex := Hex.EncodeToString (Big.Bytes z);
              ValueAlt.int := z |}.
Proof. reflexivity. Qed.

Lemma ValueAlt_New_malformed (s : string) :
  well_formed_hex s = false ->
  exists err, ValueAlt.New (ArgString s) = Fatal err.
Proof.
  intros Hs. unfold ValueAlt.New, Hex.DecodeString.
  destruct (Hex.Decode s) as [buff [err|]] eqn:E; cbn [bind].
  - now exists err.
  - exfalso. assert (Hn : snd (Hex.Decode s) = None) by now rewrite E.
    apply Decode_error_iff in Hn. congruence.
Qed.

(** For bytes, hex strings and integers that are not negative, the second
    [New] keeps the integer and the bytes together as well. *)
Lemma ValueAlt_New_int_of_bytes (a : arg) (v : ValueAlt.Value) :
  (forall z, a = ArgInt (Some z) -> 0 <= z) ->
  ValueAlt.New a = Return v ->
  ValueAlt.int v = Big.SetBytes (ValueAlt.bytes v).
Proof.
  intros Hnn. unfold ValueAlt.New.
  destruct a as [s|bs|[z|]|]; cbn [bind]; try discriminate;
    try (intros Hv; inversion Hv; reflexivity).
  - destruct (Hex.DecodeString s) as [buff [err|]]; cbn [bind];
      [discriminate|].
    intros Hv; inversion Hv; reflexivity.
  - intros Hv; inversion Hv. cbn [ValueAlt.int ValueAlt.bytes].
    rewrite SetBytes_Bytes. symmetry. apply Z.abs_eq. now apply Hnn.
Qed.

(** A negative integer keeps its sign there, while its bytes are those of
    its magnitude. *)
Lemma ValueAlt_New_negative_int :
  exists v,
    ValueAlt.New (ArgInt (Some (-5))) = Return v
    /\ ValueAlt.int v = -5
    /\ Big.SetBytes (ValueAlt.bytes v) = 5.
Proof. eexists. repeat split. Qed.

End ValueFacts.

(* ------------------------------------------------------------------ *)
(** ** The invariants of a constructed Value                            *)
(* ------------------------------------------------------------------ *)

Section ValueInvariants.

(** Construction from bytes or from an integer prints the hex string
    from the bytes, so it is the canonical lowercase one. *)
Lemma New_canonical_bytes_int (a : arg) (v : Value) :
  (exists bs, a = ArgBytes bs) \/ (exists z, a = ArgInt (Some z)) ->
  Value.New a = Return v ->
  Hex v = Hex.EncodeToString (Bytes v).
Proof.
  intros [[bs ->]|[z ->]]; [rewrite New_bytes | rewrite New_int];
    intros Hv; inversion Hv; reflexivity.
Qed.

(** C4 (canonical hex invariant), evaluated on the code: a Value
    constructed from the valid uppercase hex string "AB" stores "AB" as
    its hex string, while the lowercase encoding of its stored bytes is
    "ab"; the stored hex string is not the canonical one. *)
Theorem New_keeps_uppercase_hex :
  exists v,
    Value.New (ArgString "AB") = Return v
    /\ Hex v = "AB"%string
    /\ Hex.EncodeToString (Bytes v) = "ab"%string
    /\ Hex v <> Hex.EncodeToString (Bytes v).
Proof.
  eexists. split; [reflexivity|].
  repeat split; cbn; discriminate.
Qed.

(** C5 (integer-bytes synchronization): for every Value that [New]
    returns, whether from bytes, a hex string or an integer, the integer
    view is the stored bytes read as an unsigned big-endian number, and
    so is never negative. *)
Theorem New_integer_matches_bytes (a : arg) (v : Value) :
  Value.New a = Return v ->
  Int v = Big.SetBytes (Bytes v) /\ 0 <= Int v.
Proof.
  intros Hv. pose proof (New_int_of_bytes a v Hv) as E.
  unfold Int, Bytes. split; [exact E|].
  rewrite E. apply SetBytes_nonneg.
Qed.

Lemma New_integer_matches_bytes_witness :
  Value.New (ArgInt (Some (-14159265359)))
  = Return (valueOfInt 14159265359)
  /\ Int (valueOfInt 14159265359)
     = Big.SetBytes (Bytes (valueOfInt 14159265359))
  /\ 0 <= Int (valueOfInt 14159265359).
Proof.
  split; [reflexivity|].
  apply (New_integer_matches_bytes (ArgInt (Some (-14159265359)))).
  reflexivity.
Defined.

(** Construction from bytes and from an integer always returns. *)
Lemma New_bytes_int_return :
  (forall bs, exists v, Value.New (ArgBytes bs) = Return v)
  /\ (forall z, exists v, Value.New (ArgInt (Some z)) = Return v).
Proof.
  split; intros; [rewrite New_bytes | rewrite New_int]; eauto.
Qed.

(** C7 as stated fails: on the odd-length string "abc" [New] does not
    hand an error back; it ends the process in [log.Fatal], and its
    caller does not run any further. *)
Lemma New_malformed_is_fatal_abc :
  Value.New (ArgString "abc") = Fatal ErrLength
  /\ ~ returns_to_caller (Value.New (ArgString "abc")).
Proof. split; [reflexivity|]. cbn. tauto. Qed.

(** C7 (amended): for every malformed hex string (odd length or a
    character that is no hexadecimal digit), construction ends in
    [log.Fatal] with the decoding error: the process is terminated, no
    Value is produced and nothing is returned to the caller. *)
Theorem New_malformed_is_fatal (s : string) :
  well_formed_hex s = false ->
  exists err,
    Value.New (ArgString s) = Fatal err
    /\ ~ returns_to_caller (Value.New (ArgString s))
    /\ forall v, Value.New (ArgString s) <> Return v.
Proof.
  intros Hs. destruct (New_string_malformed s Hs) as [err [_ E]].
  exists err. rewrite E. repeat split; [cbn; tauto | discriminate].
Qed.

Lemma New_malformed_is_fatal_witness :
  well_formed_hex "0g" = false
  /\ exists err,
       Value.New (ArgString "0g") = Fatal err
       /\ ~ returns_to_caller (Value.New (ArgString "0g"))
       /\ forall v, Value.New (ArgString "0g") <> Return v.
Proof.
  split; [reflexivity|].
  apply (New_malformed_is_fatal "0g"). reflexivity.
Defined.

(** A well-formed string, of either case, is accepted. *)
Lemma New_well_formed_returns (s : string) :
  well_formed_hex s = true -> exists v, Value.New (ArgString s) = Return v.
Proof. intros Hs. rewrite (New_string s Hs). eauto. Qed.

(** C10 (zero-value encoding): the Value constructed from the integer 0
    has the empty byte sequence (length 0, not a single zero byte) and
    the empty hex string, and so adds no byte to a concatenation of bytes
    that is fed to a digest. *)
Theorem New_zero_is_empty :
  exists v,
    Value.New (ArgInt (Some 0)) = Return v
    /\ Bytes v = []
    /\ List.length (Bytes v) = 0%nat
    /\ Bytes v <> [x00]
    /\ Hex v = EmptyString
    /\ Int v = 0
    /\ forall before after : list byte,
         before ++ Bytes v ++ after = before ++ after.
Proof.
  eexists. split; [reflexivity|].
  repeat split; discriminate.
Qed.

(** The second [New] encodes 0 in the same way. *)
Lemma ValueAlt_New_zero :
  ValueAlt.New (ArgInt (Some 0))
  = Return {| ValueAlt.bytes := [];
              ValueAlt.hex := EmptyString;
              ValueAlt.int := 0 |}.
Proof. reflexivity. Qed.

End ValueInvariants.

(* ------------------------------------------------------------------ *)
(** ** Modular exponentiation                                           *)
(* ------------------------------------------------------------------ *)

Section ExpFacts.

(** For a non-negative exponent and a modulus other than 0, [Exp] is the
    mathematical [x ^ y mod |m|], also for a negative base. *)
Lemma Exp_nonneg_exponent (x y m : Z) :
  m <> 0 -> 0 <= y -> Big.Exp x y m = Some (x ^ y mod Z.abs m).
Proof.
  intros Hm Hy. unfold Big.Exp, Big.expNN.
  replace (y <? 0) with false by (symmetry; apply Z.ltb_ge; lia).
  cbn [andb]. rewrite (Z.abs_eq y) by assumption.
  assert (Hm' : Z.abs m <> 0) by lia.
  replace (Z.abs m =? 0) with false by (symmetry; now apply Z.eqb_neq).
  cbn [negb]. rewrite andb_true_r.
  destruct (Z.ltb_spec x 0) as [Hx|Hx].
  - rewrite andb_true_r. rewrite (Z.abs_neq x) by lia.
    destruct (Z.odd y) eqn:Hodd.
    + assert (Hpow : x ^ y = - ((- x) ^ y)).
      { rewrite <- Z.pow_opp_odd by now apply Z.odd_spec.
        now rewrite Z.opp_involutive. }
      rewrite andb_true_r, Hpow.
      destruct (Z.eqb_spec ((- x) ^ y mod Z.abs m) 0) as [E|E]; cbn [negb].
      * now rewrite (Z_mod_zero_opp_full _ _ E), E.
      * now rewrite Z_mod_nz_opp_full.
    + rewrite andb_false_r.
      assert (Heven : Z.Even y).
      { apply Z.even_spec. rewrite <- Z.negb_odd, Hodd. reflexivity. }
      cbn [andb negb].
      now rewrite (Z.pow_opp_even x y Heven).
  - rewrite andb_false_r. cbn [andb]. now rewrite Z.abs_eq.
Qed.

Lemma Exp_in_range (x y m r : Z) :
  0 < m -> 0 <= y -> Big.Exp x y m = Some r -> 0 <= r < m.
Proof.
  intros Hm Hy. rewrite Exp_nonneg_exponent by lia.
  intros [= <-]. rewrite Z.abs_eq by lia. apply Z.mod_pos_bound. lia.
Qed.

End ExpFacts.

(* ------------------------------------------------------------------ *)
(** ** The engine's operations                                          *)
(* ------------------------------------------------------------------ *)

Section EngineFacts.

Import Engine.

Variable e : Engine.

Lemma New_valueOfInt (z : Z) :
  Value.New (ArgInt (Some z)) = Return (valueOfInt z).
Proof. now rewrite New_int, valueOfInt_eq. Qed.

Lemma Int_valueOfInt (z : Z) : Int (valueOfInt z) = Z.abs z.
Proof. now rewrite valueOfInt_eq. Qed.

Lemma Int_valueOfInt_mod (z m : Z) :
  0 < m -> Int (valueOfInt (z mod m)) = z mod m.
Proof.
  intros Hm. rewrite Int_valueOfInt.
  apply Z.abs_eq, Z.mod_pos_bound, Hm.
Qed.

(** [modExp] on a positive modulus and a non-negative exponent. *)
Lemma modExp_value (a b : Value) :
  0 < Int (N e) -> 0 <= Int b ->
  modExp e a b = Return (valueOfInt (Int a ^ Int b mod Int (N e))).
Proof.
  intros HN Hb. unfold modExp.
  rewrite Exp_nonneg_exponent, New_valueOfInt by lia.
  now rewrite (Z.abs_eq (Int (N e))) by lia.
Qed.

Lemma CalcB_value (b val : Value) :
  0 < Int (N e) -> 0 <= Int b ->
  CalcB e b val
  = Return (valueOfInt
              ((Int (k e) * Int val + Int (G e) ^ Int b mod Int (N e))
               mod Int (N e))).
Proof.
  intros HN Hb. unfold CalcB.
  rewrite modExp_value by assumption. cbn [bind].
  rewrite Int_valueOfInt_mod by assumption.
  unfold Big.Mod.
  replace (Int (N e) =? 0) with false by (symmetry; apply Z.eqb_neq; lia).
  cbn [bind]. rewrite New_valueOfInt.
  now rewrite (Z.abs_eq (Int (N e))) by lia.
Qed.

(** What [CalcClientS] computes: the power is taken of the magnitude of
    [B - k * g^x]. *)
Lemma CalcClientS_value (bb a x u : Value) :
  0 < Int (N e) -> 0 <= Int x ->
  CalcClientS e bb a x u
  = Return (valueOfInt
              (Z.abs (Int bb - Int (k e) * (Int (G e) ^ Int x mod Int (N e)))
               ^ Z.abs (Int a + Int u * Int x)
               mod Int (N e))).
Proof.
  intros HN Hx. unfold CalcClientS.
  rewrite modExp_value by assumption. cbn [bind].
  rewrite !New_valueOfInt. cbn [bind].
  rewrite modExp_value by (try assumption; rewrite Int_valueOfInt; lia).
  now rewrite Int_valueOfInt_mod, !Int_valueOfInt by assumption.
Qed.

Lemma CalcServerS_value (aa b val u : Value) :
  0 < Int (N e) -> 0 <= Int u -> 0 <= Int b ->
  CalcServerS e aa b val u
  = Return (valueOfInt
              (Z.abs (Int aa * (Int val ^ Int u mod Int (N e))) ^ Int b
               mod Int (N e))).
Proof.
  intros HN Hu Hb. unfold CalcServerS.
  rewrite modExp_value by assumption. cbn [bind].
  rewrite New_valueOfInt. cbn [bind].
  rewrite modExp_value by assumption.
  now rewrite Int_valueOfInt_mod, Int_valueOfInt by assumption.
Qed.

Lemma valueOfInt_mod_range (z : Z) :
  0 < Int (N e) ->
  0 <= Int (valueOfInt (z mod Int (N e))) < Int (N e).
Proof.
  intros HN. rewrite Int_valueOfInt_mod by assumption.
  apply Z.mod_pos_bound, HN.
Qed.

(** With the modulus 0, [Exp] always has a result. *)
Lemma Exp_zero_modulus (x y : Z) : exists r, Big.Exp x y 0 = Some r.
Proof.
  unfold Big.Exp. destruct (y <? 0); cbn [andb Z.eqb Z.abs negb].
  - eauto.
  - rewrite andb_false_r. eauto.
Qed.

End EngineFacts.

(* ------------------------------------------------------------------ *)
(** ** Range of the results, construction, the multiplier               *)
(* ------------------------------------------------------------------ *)

Section EngineClaims.

Import Engine.

(** C3 as stated fails: on the group N = 23, G = 5 the multiplier that
    [K] returns is the digest 28, and so are not reduced the digests that
    [CalcU] and [CalcK] return. *)
Lemma digests_not_reduced_23 :
  Int (K engine23) = 28
  /\ Int (N engine23) = 23
  /\ ~ Int (K engine23) < Int (N engine23)
  /\ ~ Int (CalcU engine23 (valueOfInt 17) (valueOfInt 21))
       < Int (N engine23)
  /\ ~ Int (CalcK engine23 (valueOfInt 30)) < Int (N engine23).
Proof. vm_compute. repeat split; discriminate. Qed.

(** C3 (amended): for a modulus N > 0 and non-negative exponents, every
    Value returned by the modular operations CalcV, CalcA, CalcB,
    CalcClientS and CalcServerS has its integer in [0, N).  (K, CalcU and
    CalcK return a digest as the Crypto gives it, without reduction.) *)
Theorem modular_results_in_range (e : Engine) :
  0 < Int (N e) ->
  (forall x, 0 <= Int x ->
     exists r, CalcV e x = Return r /\ 0 <= Int r < Int (N e))
  /\ (forall a, 0 <= Int a ->
     exists r, CalcA e a = Return r /\ 0 <= Int r < Int (N e))
  /\ (forall b v, 0 <= Int b ->
     exists r, CalcB e b v = Return r /\ 0 <= Int r < Int (N e))
  /\ (forall bb a x u, 0 <= Int x ->
     exists r, CalcClientS e bb a x u = Return r /\ 0 <= Int r < Int (N e))
  /\ (forall aa b v u, 0 <= Int u -> 0 <= Int b ->
     exists r, CalcServerS e aa b v u = Return r /\ 0 <= Int r < Int (N e)).
Proof.
  intros HN. repeat split; intros.
  - unfold CalcV. rewrite modExp_value by assumption.
    eexists; split; [reflexivity|]. now apply valueOfInt_mod_range.
  - unfold CalcA. rewrite modExp_value by assumption.
    eexists; split; [reflexivity|]. now apply valueOfInt_mod_range.
  - rewrite CalcB_value by assumption.
    eexists; split; [reflexivity|]. now apply valueOfInt_mod_range.
  - rewrite CalcClientS_value by assumption.
    eexists; split; [reflexivity|]. now apply valueOfInt_mod_range.
  - rewrite CalcServerS_value by assumption.
    eexists; split; [reflexivity|]. now apply valueOfInt_mod_range.
Qed.

Lemma modular_results_in_range_witness :
  0 < Int (N engine23)
  /\ 0 <= Int (valueOfInt 6)
  /\ exists r,
       CalcV engine23 (valueOfInt 6) = Return r
       /\ 0 <= Int r < Int (N engine23).
Proof.
  split; [reflexivity|]. split; [vm_compute; discriminate|].
  apply (modular_results_in_range engine23);
    [reflexivity | vm_compute; discriminate].
Defined.

(** C8 as stated fails: with N = 0 the constructor returns an Engine like
    for any other group, and the failure comes with the first reduction
    modulo N, a division-by-zero panic in [CalcB]. *)
Lemma New_accepts_zero_modulus :
  exists e,
    New sumCrypto {| group_N := valueOfInt 0; group_G := valueOfInt 5 |} = e
    /\ Int (N e) = 0
    /\ CalcB e (valueOfInt 4) (valueOfInt 8) = Panic DivisionByZero.
Proof. eexists. split; [reflexivity|]. split; reflexivity. Qed.

(** C8 (amended): constructing an Engine with N = 0 does not fail: [New]
    checks nothing and returns an Engine that holds N, G and
    k = H(N, G); the degenerate modulus shows at the first reduction
    modulo N, where [CalcB] panics with a division by zero. *)
Theorem New_does_not_validate (c : Crypto) (g : Group) :
  Int (group_N g) = 0 ->
  exists e,
    New c g = e
    /\ crypto e = c /\ N e = group_N g /\ G e = group_G g
    /\ k e = H c [group_N g; group_G g]
    /\ (forall a b, exists r, modExp e a b = Return r)
    /\ forall b val, CalcB e b val = Panic DivisionByZero.
Proof.
  intros HN. eexists. split; [reflexivity|].
  repeat split.
  - intros a b. unfold modExp. cbn [New N]. rewrite HN.
    destruct (Exp_zero_modulus (Int a) (Int b)) as [r ->].
    rewrite New_valueOfInt. eauto.
  - intros b val. unfold CalcB, modExp. cbn [New N G k]. rewrite HN.
    destruct (Exp_zero_modulus (Int (group_G g)) (Int b)) as [r ->].
    now rewrite New_valueOfInt.
Qed.

Lemma New_does_not_validate_witness :
  Int (group_N {| group_N := valueOfInt 0; group_G := valueOfInt 2 |}) = 0
  /\ exists e,
       New sumCrypto {| group_N := valueOfInt 0; group_G := valueOfInt 2 |} = e
       /\ crypto e = sumCrypto
       /\ N e = valueOfInt 0 /\ G e = valueOfInt 2
       /\ k e = H sumCrypto [valueOfInt 0; valueOfInt 2]
       /\ (forall a b, exists r, modExp e a b = Return r)
       /\ forall b val, CalcB e b val = Panic DivisionByZero.
Proof.
  split; [reflexivity|].
  apply (New_does_not_validate sumCrypto
           {| group_N := valueOfInt 0; group_G := valueOfInt 2 |}).
  reflexivity.
Defined.

(** C9 as stated fails.  An Engine built by [New] on a Crypto whose digest
    of (N, G) is empty holds that empty digest as its cached k, and [K]
    still asks the Crypto for the digest again.  And an Engine whose k is
    empty while H(N, G) is not (here 28, for N = 23 and G = 5) does not get
    its cached value back. *)
Lemma K_recomputes_on_empty_hex :
  (let e := New emptyCrypto group23 in
   Hex (k e) = EmptyString
   /\ snd (K_logged e) = [[N e; G e]]
   /\ snd (K_logged e) <> [])
  /\
  (let e := {| crypto := sumCrypto;
              N := valueOfInt 23;
              G := valueOfInt 5;
              k := {| bytes := []; hex := EmptyString; int := 0 |} |} in
   Hex (k e) = EmptyString
   /\ K e = H sumCrypto [valueOfInt 23; valueOfInt 5]
   /\ Int (K e) = 28
   /\ K e <> k e).
Proof.
  cbn zeta. split.
  - split; [reflexivity|]. split; [reflexivity|]. discriminate.
  - split; [reflexivity|]. split; [reflexivity|].
    split; [reflexivity|]. vm_compute. discriminate.
Qed.

(** C9 (amended): [K] returns the cached multiplier, asking nothing of the
    Crypto, when the hex encoding of the cached value is not empty; when it
    is empty, [K] computes H(N, G) anew and returns that: the empty
    encoding is itself the mark of "not computed", there is no other flag.
    For an Engine built by [New] both cases give a value equal to the one
    cached at construction. *)
Theorem K_cached_unless_empty (e : Engine) :
  (Hex (k e) <> EmptyString -> K_logged e = (k e, []))
  /\ (Hex (k e) = EmptyString ->
      K_logged e = (H (crypto e) [N e; G e], [[N e; G e]]))
  /\ forall c g, K (New c g) = k (New c g).
Proof.
  unfold K, K_logged. repeat split.
  - intros Hne. destruct (String.eqb_spec (Hex (k e)) EmptyString);
      [contradiction | reflexivity].
  - intros ->. reflexivity.
  - intros c g. cbn [New k N G crypto].
    destruct (String.eqb _ _); reflexivity.
Qed.

Lemma K_cached_unless_empty_witness :
  Hex (k engine23) <> EmptyString
  /\ K_logged engine23 = (k engine23, []).
Proof.
  split; [vm_compute; discriminate|].
  apply (proj1 (K_cached_unless_empty engine23)). vm_compute. discriminate.
Defined.

End EngineClaims.

(* ------------------------------------------------------------------ *)
(** ** The premaster secret on both sides                               *)
(* ------------------------------------------------------------------ *)

Section Premaster.

Import Engine.

(** The server's power, as a power of the generator. *)
Lemma server_power (g a x u b n : Z) :
  0 < n -> 0 <= a -> 0 <= x -> 0 <= u -> 0 <= b ->
  ((g ^ a mod n) * ((g ^ x mod n) ^ u mod n)) ^ b mod n
  = g ^ (b * (a + u * x)) mod n.
Proof.
  intros Hn Ha Hx Hu Hb.
  rewrite Zpower_mod by assumption.
  rewrite <- (Zpower_mod (g ^ x) u n) by assumption.
  rewrite <- Zmult_mod, <- Z.pow_mul_r, <- Z.pow_add_r by lia.
  rewrite <- Zpower_mod by assumption.
  rewrite <- Z.pow_mul_r by lia.
  f_equal. f_equal. lia.
Qed.

(** The client's base is the server's [g^b], modulo N. *)
Lemma client_base (kv gb n : Z) :
  ((kv + gb mod n) mod n - kv) mod n = gb mod n.
Proof.
  rewrite Zminus_mod_idemp_l.
  replace (kv + gb mod n - kv) with (gb mod n) by lia.
  apply Zmod_mod.
Qed.

Lemma client_power (g kv b E n : Z) :
  0 < n -> 0 <= b -> 0 <= E ->
  ((kv + g ^ b mod n) mod n - kv) ^ E mod n = g ^ (b * E) mod n.
Proof.
  intros Hn Hb HE.
  rewrite Zpower_mod, client_base, <- Zpower_mod by assumption.
  now rewrite <- Z.pow_mul_r.
Qed.

Variable e : Engine.
Variables x a b u v A B : Value.

Hypothesis HN : 0 < Int (N e).
Hypothesis Hx : 0 <= Int x.
Hypothesis Ha : 0 <= Int a.
Hypothesis Hb : 0 <= Int b.
Hypothesis Hu : 0 <= Int u.
Hypothesis HV : CalcV e x = Return v.
Hypothesis HA : CalcA e a = Return A.
Hypothesis HB : CalcB e b v = Return B.

Lemma run_values :
  Int v = Int (G e) ^ Int x mod Int (N e)
  /\ Int A = Int (G e) ^ Int a mod Int (N e)
  /\ Int B = (Int (k e) * Int v + Int (G e) ^ Int b mod Int (N e))
             mod Int (N e).
Proof.
  unfold CalcV in HV. unfold CalcA in HA.
  rewrite modExp_value in HV, HA by assumption.
  rewrite CalcB_value in HB by assumption.
  injection HV as <-. injection HA as <-. injection HB as <-.
  now rewrite !Int_valueOfInt_mod by assumption.
Qed.

Lemma server_value :
  CalcServerS e A b v u
  = Return (valueOfInt
              (Int (G e) ^ (Int b * (Int a + Int u * Int x)) mod Int (N e))).
Proof.
  destruct run_values as (Ev & EA & _).
  rewrite CalcServerS_value by assumption.
  rewrite Z.abs_eq.
  - rewrite EA, Ev. now rewrite server_power.
  - apply Z.mul_nonneg_nonneg.
    + rewrite EA. now apply Z.mod_pos_bound.
    + now apply Z.mod_pos_bound.
Qed.

(** Where the client's base [B - k * v] is not negative, or its exponent
    is even, both sides compute the same premaster secret. *)
Lemma premaster_agree :
  0 <= Int B - Int (k e) * Int v \/ Z.Even (Int a + Int u * Int x) ->
  exists S,
    CalcClientS e B a x u = Return S /\ CalcServerS e A b v u = Return S.
Proof.
  intros Hcase. destruct run_values as (Ev & _ & EB).
  eexists. split; [|apply server_value].
  rewrite CalcClientS_value by assumption. rewrite <- Ev.
  assert (HE : 0 <= Int a + Int u * Int x) by nia.
  rewrite (Z.abs_eq (Int a + Int u * Int x)) by assumption.
  assert (Hpow : Z.abs (Int B - Int (k e) * Int v) ^ (Int a + Int u * Int x)
                 = (Int B - Int (k e) * Int v) ^ (Int a + Int u * Int x)).
  { destruct Hcase as [Hpos|Heven].
    - now rewrite Z.abs_eq.
    - symmetry. now apply Z.pow_even_abs. }
  rewrite Hpow, EB. now rewrite client_power.
Qed.

(** Where the base is negative and the exponent odd, the client's secret
    is the opposite of the server's, modulo N. *)
Lemma premaster_opposite :
  Int B - Int (k e) * Int v < 0 -> Z.Odd (Int a + Int u * Int x) ->
  exists S S',
    CalcClientS e B a x u = Return S /\ CalcServerS e A b v u = Return S'
    /\ Int S = (- Int S') mod Int (N e).
Proof.
  intros Hneg Hodd. destruct run_values as (Ev & _ & EB).
  do 2 eexists. split; [|split; [apply server_value|]].
  - rewrite CalcClientS_value by assumption. rewrite <- Ev. reflexivity.
  - rewrite !Int_valueOfInt_mod by assumption.
    assert (HE : 0 <= Int a + Int u * Int x) by nia.
    rewrite (Z.abs_eq (Int a + Int u * Int x)) by assumption.
    rewrite (Z.abs_neq (Int B - Int (k e) * Int v)) by lia.
    rewrite Z.pow_opp_odd by assumption.
    rewrite <- (client_power (Int (G e)) (Int (k e) * Int v))
      by assumption.
    rewrite <- EB.
    rewrite <- (Z.sub_0_l (_ mod _)), Zminus_mod_idemp_r.
    reflexivity.
Qed.

End Premaster.

(* ------------------------------------------------------------------ *)
(** ** A session on the group N = 23, G = 5                             *)
(* ------------------------------------------------------------------ *)

Section Session23.

Import Engine.

(** C2 (reduction of the client's base), evaluated on the code: for
    B = 21, a = 7, x = 6, u = 38 on the group N = 23, G = 5 with k = 28,
    the base B - k * G^x is negative; [CalcClientS] returns 20, which is the
    power of the absolute value of the base, while the power of the base
    reduced into [0, N) is 3. *)
Theorem CalcClientS_absolute_base_23 :
  let B := valueOfInt 21 in
  let a := valueOfInt 7 in
  let x := valueOfInt 6 in
  let u := valueOfInt 38 in
  let base := Int B - Int (k engine23) * Int (G engine23) ^ Int x in
  let exponent := Int a + Int u * Int x in
  let n := Int (N engine23) in
  base < 0
  /\ CalcClientS engine23 B a x u = Return (valueOfInt 20)
  /\ Int (valueOfInt 20) = 20
  /\ (base mod n) ^ exponent mod n = 3
  /\ Z.abs base ^ exponent mod n = 20.
Proof. cbn zeta. repeat split; vm_compute; reflexivity. Qed.

(** C1 (protocol soundness), evaluated on the code: on the group N = 23,
    G = 5, with the password "pw", the salt "04" and the secret exponents
    a = 7 and b = 4, the values x, v, A, B, u are computed as the protocol
    says, and the client's premaster secret is 20 while the server's
    is 3. *)
Theorem premaster_secrets_differ_23 :
  exists x v A B cs ss,
    Standard.CalcX engine23 "pw" "04" = Return x
    /\ CalcV engine23 x = Return v
    /\ CalcA engine23 (valueOfInt 7) = Return A
    /\ CalcB engine23 (valueOfInt 4) v = Return B
    /\ CalcClientS engine23 B (valueOfInt 7) x (CalcU engine23 A B)
       = Return cs
    /\ CalcServerS engine23 A (valueOfInt 4) v (CalcU engine23 A B)
       = Return ss
    /\ Int cs = 20 /\ Int ss = 3 /\ cs <> ss.
Proof.
  exists (valueOfInt 6), (valueOfInt 8), (valueOfInt 17), (valueOfInt 21),
         (valueOfInt 20), (valueOfInt 3).
  repeat split; try (vm_compute; reflexivity).
  vm_compute. discriminate.
Qed.

(** With its sign, the same base gives the server's secret: [Exp] reduces
    a negative base correctly, and the second [New] would have kept the
    sign. *)
Lemma Exp_signed_base_23 :
  Big.Exp (21 - 28 * 8) 235 23 = Some 3
  /\ Big.Exp (Z.abs (21 - 28 * 8)) 235 23 = Some 20
  /\ ValueAlt.New (ArgInt (Some (21 - 28 * 8)))
     = Return {| ValueAlt.bytes := Big.Bytes 203;
                 ValueAlt.hex := "cb";
                 ValueAlt.int := -203 |}.
Proof. repeat split; vm_compute; reflexivity. Qed.

(** The same session with a = 6 has an even exponent on the client's
    side, and both sides agree. *)
Lemma premaster_secrets_agree_23 :
  exists S,
    CalcClientS engine23 (valueOfInt 21) (valueOfInt 6) (valueOfInt 6)
                (valueOfInt 29) = Return S
    /\ CalcServerS engine23 (valueOfInt 8) (valueOfInt 4) (valueOfInt 8)
                   (valueOfInt 29) = Return S.
Proof.
  apply (premaster_agree engine23 (valueOfInt 6) (valueOfInt 6)
           (valueOfInt 4) (valueOfInt 29) (valueOfInt 8) (valueOfInt 8)
           (valueOfInt 21));
    try reflexivity; try (vm_compute; discriminate).
  right. exists 90. reflexivity.
Qed.

End Session23.

(* ------------------------------------------------------------------ *)
(** ** The validation message of the Standard variant                   *)
(* ------------------------------------------------------------------ *)

Section StandardClaims.

Import Engine.

(** C6 (Standard.CalcM): the integers of A, salt and B are added with
    plain integer addition, the sum is made a Value whose bytes are the
    minimal big-endian encoding of the sum, and the result is
    KeyedHash(K, that Value); S and the username have no influence. *)
Theorem CalcM_integer_sum (e : Engine) (kk aa bb ss salt : Value)
    (username : string) :
  constructed aa -> constructed salt -> constructed bb ->
  exists m,
    Value.New (ArgInt (Some (Int aa + Int salt + Int bb))) = Return m
    /\ Int m = Int aa + Int salt + Int bb
    /\ minimal_big_endian (Int aa + Int salt + Int bb) (Bytes m)
    /\ Standard.CalcM e kk aa bb ss salt username
       = Return (KeyedHash (crypto e) kk m)
    /\ forall ss' username',
         Standard.CalcM e kk aa bb ss' salt username'
         = Standard.CalcM e kk aa bb ss salt username.
Proof.
  intros Haa Hsalt Hbb.
  apply constructed_nonneg in Haa, Hsalt, Hbb.
  set (sum := Int aa + Int salt + Int bb).
  assert (Hsum : Z.abs sum = sum) by (apply Z.abs_eq; subst sum; lia).
  exists (valueOfInt sum). split; [apply New_valueOfInt|].
  split; [now rewrite Int_valueOfInt|].
  split.
  - rewrite valueOfInt_eq. cbn [Bytes bytes].
    rewrite <- Hsum at 1. apply Bytes_minimal.
  - split; [|reflexivity].
    unfold Standard.CalcM. fold sum. now rewrite New_valueOfInt.
Qed.

Lemma CalcM_integer_sum_witness :
  constructed (valueOfInt 17) /\ constructed (valueOfInt 4)
  /\ constructed (valueOfInt 21)
  /\ exists m,
       Value.New (ArgInt (Some (Int (valueOfInt 17) + Int (valueOfInt 4)
                                + Int (valueOfInt 21)))) = Return m
       /\ Int m = Int (valueOfInt 17) + Int (valueOfInt 4)
                  + Int (valueOfInt 21)
       /\ minimal_big_endian
            (Int (valueOfInt 17) + Int (valueOfInt 4) + Int (valueOfInt 21))
            (Bytes m)
       /\ Standard.CalcM engine23 (valueOfInt 9) (valueOfInt 17)
            (valueOfInt 21) (valueOfInt 20) (valueOfInt 4) "user"
          = Return (KeyedHash (crypto engine23) (valueOfInt 9) m)
       /\ forall ss' username',
            Standard.CalcM engine23 (valueOfInt 9) (valueOfInt 17)
              (valueOfInt 21) ss' (valueOfInt 4) username'
            = Standard.CalcM engine23 (valueOfInt 9) (valueOfInt 17)
                (valueOfInt 21) (valueOfInt 20) (valueOfInt 4) "user".
Proof.
  split; [exists (ArgInt (Some 17)); reflexivity|].
  split; [exists (ArgInt (Some 4)); reflexivity|].
  split; [exists (ArgInt (Some 21)); reflexivity|].
  apply (CalcM_integer_sum engine23);
    [ exists (ArgInt (Some 17)) | exists (ArgInt (Some 4))
    | exists (ArgInt (Some 21)) ]; reflexivity.
Defined.

End StandardClaims.

(* ================================================================== *)
(** * Further properties of the Value constructor                       *)
(* ================================================================== *)

Section DecodeFacts.

Import Hex.

(** A decoded string is twice as long as its bytes. *)
Lemma Decode_length (s : string) :
  snd (Decode s) = None ->
  String.length s = (2 * List.length (fst (Decode s)))%nat.
Proof.
  induction s as [|c|c d s IH] using string_pair_ind.
  - reflexivity.
  - cbn. destruct (fromHexChar c); discriminate.
  - cbn [Decode]. destruct (fromHexChar c); [|discriminate].
    destruct (fromHexChar d); [|discriminate].
    destruct (Decode s) as [bs err]. cbn [fst snd String.length List.length] in *.
    intros Herr. rewrite (IH Herr). lia.
Qed.

Lemma fromHexChar_lower (c : ascii) (a : N) :
  fromHexChar c = Some a -> (a < 16)%N /\ hexdigit a = lower_char c.
Proof.
  destruct c as [[] [] [] [] [] [] [] []]; cbv; intros [= <-];
    split; reflexivity.
Qed.

Lemma nibbles_split (a b : N) :
  (a < 16)%N -> (b < 16)%N ->
  N.shiftr (Byte.to_N (byte_of_N (N.lor (N.shiftl a 4) b))) 4 = a
  /\ N.land (Byte.to_N (byte_of_N (N.lor (N.shiftl a 4) b))) 15 = b.
Proof.
  intros Ha Hb.
  assert (Hv : (N.lor (N.shiftl a 4) b < 256)%N).
  { destruct a as [|[[[[?|?|]|[?|?|]|]|[[?|?|]|[?|?|]|]|]|[[[?|?|]|[?|?|]|]|[[?|?|]|[?|?|]|]|]|]];
      try (exfalso; lia);
      destruct b as [|[[[[?|?|]|[?|?|]|]|[[?|?|]|[?|?|]|]|]|[[[?|?|]|[?|?|]|]|[[?|?|]|[?|?|]|]|]|]];
      try (exfalso; lia); cbv; reflexivity. }
  rewrite byte_of_N_value by assumption.
  destruct a as [|[[[[?|?|]|[?|?|]|]|[[?|?|]|[?|?|]|]|]|[[[?|?|]|[?|?|]|]|[[?|?|]|[?|?|]|]|]|]];
    try (exfalso; lia);
    destruct b as [|[[[[?|?|]|[?|?|]|]|[[?|?|]|[?|?|]|]|]|[[[?|?|]|[?|?|]|]|[[?|?|]|[?|?|]|]|]|]];
    try (exfalso; lia); split; reflexivity.
Qed.

(** Printing the decoded bytes gives the string in lower case. *)
Lemma Encode_Decode (s : string) :
  snd (Decode s) = None -> EncodeToString (fst (Decode s)) = ToLower s.
Proof.
  induction s as [|c|c d s IH] using string_pair_ind.
  - reflexivity.
  - cbn. destruct (fromHexChar c); discriminate.
  - cbn [Decode ToLower].
    destruct (fromHexChar c) as [a|] eqn:Ec; [|discriminate].
    destruct (fromHexChar d) as [b|] eqn:Ed; [|discriminate].
    destruct (Decode s) as [bs err]. cbn [fst snd] in *.
    intros Herr. cbn [EncodeToString fold_right].
    fold (EncodeToString bs). rewrite (IH Herr).
    destruct (fromHexChar_lower c a Ec) as [Ha <-].
    destruct (fromHexChar_lower d b Ed) as [Hb <-].
    unfold EncodeByte.
    destruct (nibbles_split a b Ha Hb) as [-> ->]. reflexivity.
Qed.

(** Which error [Decode] reports. *)
Lemma Decode_error (s : string) :
  snd (Decode s)
  = match first_invalid s with
    | Some c => Some (InvalidByteError c)
    | None => if Nat.even (String.length s) then None else Some ErrLength
    end.
Proof.
  unfold first_invalid.
  induction s as [|c|c d s IH] using string_pair_ind.
  - reflexivity.
  - cbn. unfold is_hex_char. destruct (fromHexChar c); reflexivity.
  - cbn [Decode list_ascii_of_string find String.length Nat.even].
    unfold is_hex_char at 1 2.
    destruct (fromHexChar c); cbn [negb snd]; [|reflexivity].
    destruct (fromHexChar d); cbn [negb snd]; [|reflexivity].
    destruct (Decode s) as [bs err]. cbn [snd] in *. exact IH.
Qed.

End DecodeFacts.

Section ValueConstruction.

(** X1 (construction from bytes): [New] on a byte slice always returns;
    the Value holds exactly these bytes, their lowercase hex encoding as
    its hex string, and their unsigned big-endian reading as its integer,
    which lies below 256 to the number of bytes. *)
Theorem New_bytes_round_trip (bs : list byte) :
  exists v,
    Value.New (ArgBytes bs) = Return v
    /\ Bytes v = bs
    /\ Hex v = Hex.EncodeToString bs
    /\ Int v = Big.SetBytes bs
    /\ 0 <= Int v < 256 ^ Z.of_nat (List.length bs).
Proof.
  rewrite New_bytes. eexists. split; [reflexivity|].
  repeat split; apply SetBytes_range.
Qed.

(** X2 (construction from an integer): [New] on an integer always
    returns; the Value holds the magnitude of the integer, its bytes are
    the minimal big-endian encoding of the magnitude, its hex string is
    their lowercase encoding, and the sign is lost: an integer and its
    opposite give the same Value. *)
Theorem New_integer_magnitude (z : Z) :
  exists v,
    Value.New (ArgInt (Some z)) = Return v
    /\ Int v = Z.abs z
    /\ minimal_big_endian (Z.abs z) (Bytes v)
    /\ Hex v = Hex.EncodeToString (Bytes v)
    /\ Value.New (ArgInt (Some (- z))) = Return v.
Proof.
  rewrite New_int. eexists. split; [reflexivity|].
  split; [reflexivity|]. split; [apply Bytes_minimal|].
  split; [reflexivity|].
  rewrite New_int, Z.abs_opp. unfold Big.Bytes.
  now rewrite Zabs2N.inj_opp.
Qed.

(** X3 (the three constructions agree): constructing from an integer is
    constructing from the bytes of its magnitude, and constructing from
    bytes is constructing from their lowercase hex string. *)
Theorem New_constructions_agree (z : Z) (bs : list byte) :
  Value.New (ArgInt (Some z)) = Value.New (ArgBytes (Big.Bytes z))
  /\ Value.New (ArgBytes bs)
     = Value.New (ArgString (Hex.EncodeToString bs)).
Proof.
  split.
  - now rewrite New_int, New_bytes, SetBytes_Bytes.
  - rewrite New_bytes. unfold Value.New. cbn [bind].
    now rewrite Decode_EncodeToString.
Qed.

(** X4 (round trip through the hex string): a Value that [New] returned is
    built again, field by field, from its hex string. *)
Theorem New_hex_round_trip (a : arg) (v : Value) :
  Value.New a = Return v -> Value.New (ArgString (Hex v)) = Return v.
Proof.
  unfold Value.New at 1.
  destruct a as [s|bs|[z|]|]; cbn [bind]; try discriminate;
    match goal with
    | |- context [Hex.DecodeString ?h] =>
        destruct (Hex.DecodeString h) as [buff [err|]] eqn:E
    end; intros Hv; inversion Hv; subst; clear Hv;
    unfold Value.New; cbn [bind Hex hex]; now rewrite E.
Qed.

Lemma New_hex_round_trip_witness :
  Value.New (ArgBytes [x03; x4b; xf5])
  = Return {| bytes := [x03; x4b; xf5]; hex := "034bf5"; int := 216053 |}
  /\ Value.New (ArgString "034bf5")
     = Return {| bytes := [x03; x4b; xf5]; hex := "034bf5"; int := 216053 |}.
Proof.
  split; [reflexivity|].
  apply (New_hex_round_trip (ArgBytes [x03; x4b; xf5])
           {| bytes := [x03; x4b; xf5]; hex := "034bf5"; int := 216053 |}).
  reflexivity.
Defined.

(** X5 (shape of a constructed Value): the hex string of a Value that
    [New] returned is well formed and has two characters for each byte, and
    the integer lies in [0, 256^n) for n bytes. *)
Theorem New_hex_shape (a : arg) (v : Value) :
  Value.New a = Return v ->
  well_formed_hex (Hex v) = true
  /\ String.length (Hex v) = (2 * List.length (Bytes v))%nat
  /\ 0 <= Int v < 256 ^ Z.of_nat (List.length (Bytes v)).
Proof.
  intros Hv.
  assert (Hd : Hex.Decode (Hex v) = (Bytes v, None)
               /\ Int v = Big.SetBytes (Bytes v)).
  { revert Hv. unfold Value.New.
    destruct a as [s|bs|[z|]|]; cbn [bind]; try discriminate;
      match goal with
      | |- context [Hex.DecodeString ?h] =>
          destruct (Hex.DecodeString h) as [buff [err|]] eqn:E
      end; intros Hv; inversion Hv; subst; clear Hv;
      split; try reflexivity; exact E. }
  destruct Hd as [Hd Hi].
  assert (Hn : snd (Hex.Decode (Hex v)) = None) by now rewrite Hd.
  split; [now apply Decode_error_iff|].
  split.
  - rewrite (Decode_length _ Hn). now rewrite Hd.
  - rewrite Hi. apply SetBytes_range.
Qed.

Lemma New_hex_shape_witness :
  Value.New (ArgString "00AB")
  = Return {| bytes := [x00; xab]; hex := "00AB"; int := 171 |}
  /\ well_formed_hex "00AB" = true
  /\ String.length "00AB" = (2 * 2)%nat
  /\ 0 <= 171 < 256 ^ 2.
Proof.
  split; [reflexivity|].
  apply (New_hex_shape (ArgString "00AB")
           {| bytes := [x00; xab]; hex := "00AB"; int := 171 |}).
  reflexivity.
Defined.

(** X6 (a hex string argument and its case): for a well-formed hex string
    [New] returns a Value that keeps the string as it was given, while the
    lowercase encoding of its bytes is the string in lower case; so the
    stored hex string is the encoding of the stored bytes exactly when the
    argument has no upper-case digit. *)
Theorem New_string_lowercase (s : string) :
  well_formed_hex s = true ->
  exists v,
    Value.New (ArgString s) = Return v
    /\ Hex v = s
    /\ Hex.EncodeToString (Bytes v) = ToLower s
    /\ (Hex v = Hex.EncodeToString (Bytes v) <-> ToLower s = s).
Proof.
  intros Hs. rewrite (New_string s Hs). eexists. split; [reflexivity|].
  apply Decode_error_iff in Hs.
  cbn [Hex Bytes hex bytes]. rewrite (Encode_Decode s Hs).
  repeat split; intros E; now symmetry.
Qed.

Lemma New_string_lowercase_witness :
  well_formed_hex "0aF3" = true
  /\ exists v,
       Value.New (ArgString "0aF3") = Return v
       /\ Hex v = "0aF3"%string
       /\ Hex.EncodeToString (Bytes v) = ToLower "0aF3"
       /\ (Hex v = Hex.EncodeToString (Bytes v) <-> ToLower "0aF3" = "0aF3"%string).
Proof.
  split; [reflexivity|].
  apply (New_string_lowercase "0aF3"). reflexivity.
Defined.

(** X7 (the case of the digits does not reach bytes and integer): a
    well-formed hex string and the same string in lower case give Values
    with the same bytes and the same integer; the Value of the lowercase
    string is the one constructed from these bytes. *)
Theorem New_case_insensitive (s : string) :
  well_formed_hex s = true ->
  exists v v',
    Value.New (ArgString s) = Return v
    /\ Value.New (ArgString (ToLower s)) = Return v'
    /\ Bytes v' = Bytes v
    /\ Int v' = Int v
    /\ Value.New (ArgBytes (Bytes v)) = Return v'.
Proof.
  intros Hs. rewrite (New_string s Hs).
  apply Decode_error_iff in Hs. pose proof (Encode_Decode s Hs) as E.
  do 2 eexists. split; [reflexivity|]. cbn [Bytes Int bytes int].
  rewrite <- E, New_bytes.
  unfold Value.New. cbn [bind]. rewrite Decode_EncodeToString.
  repeat split.
Qed.

Lemma New_case_insensitive_witness :
  well_formed_hex "0aF3" = true
  /\ exists v v',
       Value.New (ArgString "0aF3") = Return v
       /\ Value.New (ArgString (ToLower "0aF3")) = Return v'
       /\ Bytes v' = Bytes v
       /\ Int v' = Int v
       /\ Value.New (ArgBytes (Bytes v)) = Return v'.
Proof.
  split; [reflexivity|].
  apply (New_case_insensitive "0aF3"). reflexivity.
Defined.

(** X8 (which error ends the construction): on a hex string, [New] ends in
    [log.Fatal] with [InvalidByteError c] for the first character [c] of
    the string that is no hexadecimal digit; with [ErrLength] when all
    characters are digits and their number is odd; and returns
    otherwise. *)
Theorem New_string_outcome (s : string) :
  Value.New (ArgString s)
  = match first_invalid s with
    | Some c => Fatal (InvalidByteError c)
    | None =>
        if Nat.even (String.length s)
        then Return {| bytes := fst (Hex.Decode s);
                       hex := s;
                       int := Big.SetBytes (fst (Hex.Decode s)) |}
        else Fatal ErrLength
    end.
Proof.
  pose proof (Decode_error s) as E.
  unfold Value.New, Hex.DecodeString. cbn [bind].
  destruct (Hex.Decode s) as [buff err]. cbn [fst snd] in *. subst err.
  destruct (first_invalid s); [reflexivity|].
  destruct (Nat.even (String.length s)); reflexivity.
Qed.

(** X9 (re-encoding through the integer): building a Value again from
    the integer of a constructed Value keeps the integer, never has more
    bytes (leading zero bytes are dropped), and is stable from then
    on. *)
Theorem New_through_integer (a : arg) (v : Value) :
  Value.New a = Return v ->
  exists w,
    Value.New (ArgInt (Some (Int v))) = Return w
    /\ Int w = Int v
    /\ (List.length (Bytes w) <= List.length (Bytes v))%nat
    /\ Value.New (ArgInt (Some (Int w))) = Return w.
Proof.
  intros Hv. pose proof (New_int_of_bytes a v Hv) as Hi.
  assert (Hn : 0 <= Int v) by (unfold Int; rewrite Hi; apply SetBytes_nonneg).
  unfold Int, Bytes in *.
  rewrite New_int. eexists. split; [reflexivity|].
  cbn [int bytes]. rewrite (Z.abs_eq (int v)) by exact Hn.
  split; [reflexivity|]. split.
  - destruct (Bytes_minimal (int v)) as [_ Hmin]. apply Hmin.
    now rewrite Z.abs_eq.
  - rewrite New_int. now rewrite (Z.abs_eq (int v)).
Qed.

Lemma New_through_integer_witness :
  Value.New (ArgBytes [x00; x00; x02])
  = Return {| bytes := [x00; x00; x02]; hex := "000002"; int := 2 |}
  /\ exists w,
       Value.New (ArgInt (Some 2)) = Return w
       /\ Int w = 2
       /\ (List.length (Bytes w) <= 3)%nat
       /\ Value.New (ArgInt (Some (Int w))) = Return w.
Proof.
  split; [reflexivity|].
  apply (New_through_integer (ArgBytes [x00; x00; x02])
           {| bytes := [x00; x00; x02]; hex := "000002"; int := 2 |}).
  reflexivity.
Defined.

End ValueConstruction.

(* ================================================================== *)
(** * The second constructor                                            *)
(* ================================================================== *)

Section SecondConstructor.

(** X10 (invariants of the second [New]): whatever the argument, the
    Value it returns has the lowercase encoding of its bytes as its hex
    string, and its bytes denote the magnitude of its integer. *)
Theorem ValueAlt_New_invariants (a : arg) (v : ValueAlt.Value) :
  ValueAlt.New a = Return v ->
  ValueAlt.hex v = Hex.EncodeToString (ValueAlt.bytes v)
  /\ Z.abs (ValueAlt.int v) = Big.SetBytes (ValueAlt.bytes v).
Proof.
  intros Hv. split; [exact (ValueAlt_New_canonical a v Hv)|].
  revert Hv. unfold ValueAlt.New.
  destruct a as [s|bs|[z|]|]; cbn [bind]; try discriminate.
  - destruct (Hex.DecodeString s) as [buff [err|]]; cbn [bind];
      [discriminate|].
    intros Hv; inversion Hv. cbn [ValueAlt.int ValueAlt.bytes].
    apply Z.abs_eq, SetBytes_nonneg.
  - intros Hv; inversion Hv. cbn [ValueAlt.int ValueAlt.bytes].
    apply Z.abs_eq, SetBytes_nonneg.
  - intros Hv; inversion Hv. cbn [ValueAlt.int ValueAlt.bytes].
    now rewrite SetBytes_Bytes.
  - intros Hv; inversion Hv. reflexivity.
Qed.

Lemma ValueAlt_New_invariants_witness :
  ValueAlt.New (ArgInt (Some (-203)))
  = Return {| ValueAlt.bytes := [xcb];
              ValueAlt.hex := "cb";
              ValueAlt.int := -203 |}
  /\ "cb"%string = Hex.EncodeToString [xcb]
  /\ Z.abs (-203) = Big.SetBytes [xcb].
Proof.
  split; [reflexivity|].
  apply (ValueAlt_New_invariants (ArgInt (Some (-203)))
           {| ValueAlt.bytes := [xcb];
              ValueAlt.hex := "cb";
              ValueAlt.int := -203 |}).
  reflexivity.
Defined.

(** X11 (the two constructors side by side): on every argument both end
    the same way.  Where the first returns a Value, the second returns one
    with the same bytes, with the lowercase encoding of these bytes as hex
    string, and with an integer of the same magnitude; where the first ends
    in [log.Fatal] or panics, the second does so with the same error. *)
Theorem constructors_side_by_side (a : arg) :
  (forall v, Value.New a = Return v ->
     exists v', ValueAlt.New a = Return v'
                /\ ValueAlt.bytes v' = Bytes v
                /\ ValueAlt.hex v' = Hex.EncodeToString (Bytes v)
                /\ Z.abs (ValueAlt.int v') = Int v)
  /\ (forall err, Value.New a = Fatal err -> ValueAlt.New a = Fatal err)
  /\ (forall p, Value.New a = Panic p -> ValueAlt.New a = Panic p).
Proof.
  destruct a as [s|bs|[z|]|].
  - unfold Value.New, ValueAlt.New. cbn [bind].
    destruct (Hex.DecodeString s) as [buff [err|]]; cbn [bind].
    + repeat split; try discriminate. now intros err' [= <-].
    + repeat split; try discriminate.
      intros v [= <-]. eexists. repeat split.
      cbn [ValueAlt.int]. apply Z.abs_eq, SetBytes_nonneg.
  - rewrite New_bytes. repeat split; try discriminate.
    intros v [= <-]. eexists. repeat split.
    cbn [ValueAlt.int]. apply Z.abs_eq, SetBytes_nonneg.
  - rewrite New_int. repeat split; try discriminate.
    intros v [= <-]. eexists. repeat split.
  - repeat split; try discriminate. now intros p [= <-].
  - repeat split; try discriminate.
    intros v [= <-]. eexists. repeat split.
Qed.

Lemma constructors_side_by_side_witness :
  Value.New (ArgString "AB")
  = Return {| bytes := [xab]; hex := "AB"; int := 171 |}
  /\ exists v', ValueAlt.New (ArgString "AB") = Return v'
                /\ ValueAlt.bytes v' = [xab]
                /\ ValueAlt.hex v' = Hex.EncodeToString [xab]
                /\ Z.abs (ValueAlt.int v') = 171.
Proof.
  split; [reflexivity|].
  apply (proj1 (constructors_side_by_side (ArgString "AB"))
           {| bytes := [xab]; hex := "AB"; int := 171 |}).
  reflexivity.
Defined.

End SecondConstructor.

(* ================================================================== *)
(** * What the engine's operations compute                              *)
(* ================================================================== *)

Section EngineOperations.

Import Engine.

Variable e : Engine.
Hypothesis HN : 0 < Int (N e).

(** X12 (verifier and public client value): for N > 0 and an exponent
    that is not negative, [CalcV] and [CalcA] return the same Value, whose
    integer is G^x mod N and which is itself a Value as [New] builds
    it. *)
Theorem CalcV_CalcA_power (x : Value) :
  0 <= Int x ->
  exists r,
    CalcV e x = Return r
    /\ CalcA e x = Return r
    /\ Int r = Int (G e) ^ Int x mod Int (N e)
    /\ constructed r.
Proof.
  intros Hx. unfold CalcV, CalcA. rewrite modExp_value by assumption.
  eexists. split; [reflexivity|]. split; [reflexivity|].
  split; [now apply Int_valueOfInt_mod | apply valueOfInt_constructed].
Qed.

(** X13 (public server value): for N > 0 and b not negative, [CalcB]
    returns B = (k * v + G^b) mod N, so that B - k * v is G^b modulo N. *)
Theorem CalcB_sum (b v : Value) :
  0 <= Int b ->
  exists B,
    CalcB e b v = Return B
    /\ Int B = (Int (k e) * Int v + Int (G e) ^ Int b) mod Int (N e)
    /\ (Int B - Int (k e) * Int v) mod Int (N e)
       = Int (G e) ^ Int b mod Int (N e).
Proof.
  intros Hb. rewrite CalcB_value by assumption.
  eexists. split; [reflexivity|].
  rewrite Int_valueOfInt_mod by assumption.
  split.
  - now rewrite Zplus_mod_idemp_r.
  - apply client_base.
Qed.

(** X14 (server's premaster secret): for N > 0 and A, u, b not negative,
    [CalcServerS] returns (A * v^u)^b mod N. *)
Theorem CalcServerS_power (aa b v u : Value) :
  0 <= Int aa -> 0 <= Int u -> 0 <= Int b ->
  exists S,
    CalcServerS e aa b v u = Return S
    /\ Int S = (Int aa * Int v ^ Int u) ^ Int b mod Int (N e).
Proof.
  intros Haa Hu Hb. rewrite CalcServerS_value by assumption.
  eexists. split; [reflexivity|].
  rewrite Int_valueOfInt_mod by assumption.
  rewrite Z.abs_eq.
  - rewrite Zpower_mod, Zmult_mod_idemp_r, <- Zpower_mod by assumption.
    reflexivity.
  - apply Z.mul_nonneg_nonneg; [assumption|].
    now apply Z.mod_pos_bound.
Qed.

(** X15 (client's premaster secret): for N > 0 and a, x, u not negative,
    [CalcClientS] returns |B - k * (G^x mod N)|^(a + u * x) mod N; this is
    (B - k * G^x)^(a + u * x) mod N whenever B - k * (G^x mod N) is not
    negative. *)
Theorem CalcClientS_power (bb a x u : Value) :
  0 <= Int a -> 0 <= Int x -> 0 <= Int u ->
  exists S,
    CalcClientS e bb a x u = Return S
    /\ Int S = Z.abs (Int bb - Int (k e) * (Int (G e) ^ Int x mod Int (N e)))
               ^ (Int a + Int u * Int x) mod Int (N e)
    /\ (0 <= Int bb - Int (k e) * (Int (G e) ^ Int x mod Int (N e)) ->
        Int S = (Int bb - Int (k e) * Int (G e) ^ Int x)
                ^ (Int a + Int u * Int x) mod Int (N e)).
Proof.
  intros Ha Hx Hu. rewrite CalcClientS_value by assumption.
  eexists. split; [reflexivity|].
  rewrite Int_valueOfInt_mod by assumption.
  assert (HE : 0 <= Int a + Int u * Int x) by nia.
  rewrite (Z.abs_eq (Int a + Int u * Int x)) by assumption.
  split; [reflexivity|].
  intros Hbase. rewrite Z.abs_eq by assumption.
  rewrite Zpower_mod by assumption.
  rewrite Zminus_mod, Zmult_mod_idemp_r, <- Zminus_mod.
  now rewrite <- Zpower_mod by assumption.
Qed.

End EngineOperations.

Section EngineOperationsWitnesses.

Import Engine.

Lemma CalcV_CalcA_power_witness :
  0 < Int (N engine23) /\ 0 <= Int (valueOfInt 6)
  /\ exists r,
       CalcV engine23 (valueOfInt 6) = Return r
       /\ CalcA engine23 (valueOfInt 6) = Return r
       /\ Int r = Int (G engine23) ^ Int (valueOfInt 6) mod Int (N engine23)
       /\ constructed r.
Proof.
  split; [reflexivity|]. split; [vm_compute; discriminate|].
  apply (CalcV_CalcA_power engine23);
    [reflexivity | vm_compute; discriminate].
Defined.

Lemma CalcB_sum_witness :
  0 < Int (N engine23) /\ 0 <= Int (valueOfInt 4)
  /\ exists B,
       CalcB engine23 (valueOfInt 4) (valueOfInt 8) = Return B
       /\ Int B = (Int (k engine23) * Int (valueOfInt 8)
                   + Int (G engine23) ^ Int (valueOfInt 4))
                  mod Int (N engine23)
       /\ (Int B - Int (k engine23) * Int (valueOfInt 8)) mod Int (N engine23)
          = Int (G engine23) ^ Int (valueOfInt 4) mod Int (N engine23).
Proof.
  split; [reflexivity|]. split; [vm_compute; discriminate|].
  apply (CalcB_sum engine23); [reflexivity | vm_compute; discriminate].
Defined.

Lemma CalcServerS_power_witness :
  0 < Int (N engine23)
  /\ 0 <= Int (valueOfInt 17) /\ 0 <= Int (valueOfInt 38)
  /\ 0 <= Int (valueOfInt 4)
  /\ exists S,
       CalcServerS engine23 (valueOfInt 17) (valueOfInt 4) (valueOfInt 8)
         (valueOfInt 38) = Return S
       /\ Int S = (Int (valueOfInt 17) * Int (valueOfInt 8) ^ Int (valueOfInt 38))
                  ^ Int (valueOfInt 4) mod Int (N engine23).
Proof.
  split; [reflexivity|]. repeat (split; [vm_compute; discriminate|]).
  apply (CalcServerS_power engine23);
    [reflexivity | vm_compute; discriminate ..].
Defined.

Lemma CalcClientS_power_witness :
  0 < Int (N engine23)
  /\ 0 <= Int (valueOfInt 7) /\ 0 <= Int (valueOfInt 6)
  /\ 0 <= Int (valueOfInt 38)
  /\ exists S,
       CalcClientS engine23 (valueOfInt 21) (valueOfInt 7) (valueOfInt 6)
         (valueOfInt 38) = Return S
       /\ Int S
          = Z.abs (Int (valueOfInt 21)
                   - Int (k engine23)
                     * (Int (G engine23) ^ Int (valueOfInt 6)
                        mod Int (N engine23)))
            ^ (Int (valueOfInt 7) + Int (valueOfInt 38) * Int (valueOfInt 6))
            mod Int (N engine23)
       /\ (0 <= Int (valueOfInt 21)
                - Int (k engine23)
                  * (Int (G engine23) ^ Int (valueOfInt 6)
                     mod Int (N engine23)) ->
           Int S
           = (Int (valueOfInt 21)
              - Int (k engine23) * Int (G engine23) ^ Int (valueOfInt 6))
             ^ (Int (valueOfInt 7) + Int (valueOfInt 38) * Int (valueOfInt 6))
             mod Int (N engine23)).
Proof.
  split; [reflexivity|]. repeat (split; [vm_compute; discriminate|]).
  apply (CalcClientS_power engine23);
    [reflexivity | vm_compute; discriminate ..].
Defined.

End EngineOperationsWitnesses.

(* ================================================================== *)
(** * When the two premaster secrets agree                              *)
(* ================================================================== *)

Section PremasterSecrets.

Import Engine.

(** X16 (agreement of the premaster secrets): let N > 0 and x, a, b, u
    not negative, v = CalcV(x), A = CalcA(a), B = CalcB(b, v).  If
    B - k * v is not negative, or a + u * x is even, then CalcClientS(B, a,
    x, u) and CalcServerS(A, b, v, u) return the same Value. *)
Theorem premaster_secrets_agree (e : Engine) (x a b u v A B : Value) :
  0 < Int (N e) ->
  0 <= Int x -> 0 <= Int a -> 0 <= Int b -> 0 <= Int u ->
  CalcV e x = Return v -> CalcA e a = Return A ->
  CalcB e b v = Return B ->
  0 <= Int B - Int (k e) * Int v \/ Z.Even (Int a + Int u * Int x) ->
  exists S,
    CalcClientS e B a x u = Return S /\ CalcServerS e A b v u = Return S.
Proof.
  intros. now apply (premaster_agree e x a b u v A B).
Qed.

Lemma premaster_secrets_agree_witness :
  exists S,
    CalcClientS engine23 (valueOfInt 21) (valueOfInt 6) (valueOfInt 6)
                (valueOfInt 29) = Return S
    /\ CalcServerS engine23 (valueOfInt 8) (valueOfInt 4) (valueOfInt 8)
                   (valueOfInt 29) = Return S.
Proof.
  apply (premaster_secrets_agree engine23 (valueOfInt 6) (valueOfInt 6)
           (valueOfInt 4) (valueOfInt 29) (valueOfInt 8) (valueOfInt 8)
           (valueOfInt 21));
    try reflexivity; try (vm_compute; discriminate).
  right. exists 90. reflexivity.
Defined.

(** X17 (disagreement of the premaster secrets): under the same
    conditions, if B - k * v is negative and a + u * x is odd, the client's
    secret is the opposite of the server's modulo N; for an odd N the two
    then differ unless the server's secret is 0. *)
Theorem premaster_secrets_opposite (e : Engine) (x a b u v A B : Value) :
  0 < Int (N e) ->
  0 <= Int x -> 0 <= Int a -> 0 <= Int b -> 0 <= Int u ->
  CalcV e x = Return v -> CalcA e a = Return A ->
  CalcB e b v = Return B ->
  Int B - Int (k e) * Int v < 0 -> Z.Odd (Int a + Int u * Int x) ->
  exists S S',
    CalcClientS e B a x u = Return S
    /\ CalcServerS e A b v u = Return S'
    /\ Int S = (- Int S') mod Int (N e)
    /\ (Z.odd (Int (N e)) = true -> Int S' <> 0 -> S <> S').
Proof.
  intros HN Hx Ha Hb Hu HV HA HB Hneg Hodd.
  destruct (premaster_opposite e x a b u v A B HN Hx Ha Hb Hu HV HA HB
              Hneg Hodd) as (S & S' & HS & HS' & E).
  exists S, S'. repeat split; try assumption.
  intros HNodd Hnz Heq. subst S'.
  assert (Hr : 0 <= Int S < Int (N e)).
  { rewrite E. now apply Z.mod_pos_bound. }
  rewrite Z_mod_nz_opp_full in E
    by (rewrite Z.mod_small by assumption; assumption).
  rewrite Z.mod_small in E by assumption.
  assert (E2 : Int (N e) = 2 * Int S) by lia.
  rewrite E2, Z.odd_mul in HNodd. discriminate.
Qed.

Lemma premaster_secrets_opposite_witness :
  exists S S',
    CalcClientS engine23 (valueOfInt 21) (valueOfInt 7) (valueOfInt 6)
                (valueOfInt 38) = Return S
    /\ CalcServerS engine23 (valueOfInt 17) (valueOfInt 4) (valueOfInt 8)
                   (valueOfInt 38) = Return S'
    /\ Int S = (- Int S') mod Int (N engine23)
    /\ (Z.odd (Int (N engine23)) = true -> Int S' <> 0 -> S <> S').
Proof.
  apply (premaster_secrets_opposite engine23 (valueOfInt 6) (valueOfInt 7)
           (valueOfInt 4) (valueOfInt 38) (valueOfInt 8) (valueOfInt 17)
           (valueOfInt 21));
    try reflexivity; try (vm_compute; discriminate).
  exists 117. reflexivity.
Defined.

End PremasterSecrets.

(* ================================================================== *)
(** * The Standard variant                                              *)
(* ================================================================== *)

Section StandardVariant.

Import Engine.

(** X18 (private key): the salt of [CalcX] is a hex string.  For a
    well-formed one, [CalcX] returns PasswordHash(s, password) for the
    Value s that keeps the salt as its hex string; for a malformed one the
    call ends in [log.Fatal] and no key is produced. *)
Theorem CalcX_outcome (e : Engine) (password salt : string) :
  (well_formed_hex salt = true ->
     exists s,
       Value.New (ArgString salt) = Return s
       /\ Hex s = salt
       /\ Standard.CalcX e password salt
          = Return (PasswordHash (crypto e) s password))
  /\ (well_formed_hex salt = false ->
        exists err, Standard.CalcX e password salt = Fatal err).
Proof.
  unfold Standard.CalcX. split; intros Hs.
  - rewrite (New_string salt Hs). eexists. repeat split.
  - destruct (New_string_malformed salt Hs) as [err [_ ->]].
    now exists err.
Qed.

Lemma CalcX_outcome_witness :
  well_formed_hex "045d" = true
  /\ (exists s,
        Value.New (ArgString "045d") = Return s
        /\ Hex s = "045d"%string
        /\ Standard.CalcX engine23 "pw" "045d"
           = Return (PasswordHash (crypto engine23) s "pw"))
  /\ well_formed_hex "45d" = false
  /\ exists err, Standard.CalcX engine23 "pw" "45d" = Fatal err.
Proof.
  split; [reflexivity|].
  split; [apply (proj1 (CalcX_outcome engine23 "pw" "045d")); reflexivity|].
  split; [reflexivity|].
  apply (proj2 (CalcX_outcome engine23 "pw" "45d")). reflexivity.
Defined.

(** X19 (response validation message): [CalcM2] adds the integers of A
    and M with plain integer addition, makes the sum a Value whose bytes
    are the minimal big-endian encoding of the sum, and returns
    KeyedHash(K, that Value); S has no influence. *)
Theorem CalcM2_integer_sum (e : Engine) (kk aa mm ss : Value) :
  constructed aa -> constructed mm ->
  exists m,
    Value.New (ArgInt (Some (Int aa + Int mm))) = Return m
    /\ Int m = Int aa + Int mm
    /\ minimal_big_endian (Int aa + Int mm) (Bytes m)
    /\ Standard.CalcM2 e kk aa mm ss = Return (KeyedHash (crypto e) kk m)
    /\ forall ss', Standard.CalcM2 e kk aa mm ss'
                   = Standard.CalcM2 e kk aa mm ss.
Proof.
  intros Haa Hmm. apply constructed_nonneg in Haa, Hmm.
  set (sum := Int aa + Int mm).
  assert (Hsum : Z.abs sum = sum) by (apply Z.abs_eq; subst sum; lia).
  exists (valueOfInt sum). split; [apply New_valueOfInt|].
  split; [now rewrite Int_valueOfInt|].
  split.
  - rewrite valueOfInt_eq. cbn [Bytes bytes].
    rewrite <- Hsum at 1. apply Bytes_minimal.
  - split; [|reflexivity].
    unfold Standard.CalcM2. fold sum. now rewrite New_valueOfInt.
Qed.

Lemma CalcM2_integer_sum_witness :
  exists m,
    Value.New (ArgInt (Some (Int (valueOfInt 17) + Int (valueOfInt 51))))
    = Return m
    /\ Int m = Int (valueOfInt 17) + Int (valueOfInt 51)
    /\ minimal_big_endian (Int (valueOfInt 17) + Int (valueOfInt 51))
                          (Bytes m)
    /\ Standard.CalcM2 engine23 (valueOfInt 9) (valueOfInt 17)
         (valueOfInt 51) (valueOfInt 20)
       = Return (KeyedHash (crypto engine23) (valueOfInt 9) m)
    /\ forall ss', Standard.CalcM2 engine23 (valueOfInt 9) (valueOfInt 17)
                     (valueOfInt 51) ss'
                   = Standard.CalcM2 engine23 (valueOfInt 9) (valueOfInt 17)
                       (valueOfInt 51) (valueOfInt 20).
Proof.
  apply (CalcM2_integer_sum engine23);
    [ exists (ArgInt (Some 17)) | exists (ArgInt (Some 51)) ]; reflexivity.
Defined.

(** X20 (what the validation messages bind): [CalcM] reads A, salt and B
    only through the sum of their integers, and [CalcM2] reads A and M only
    through theirs: arguments with the same sum give the same message, so
    exchanging A and B changes nothing. *)
Theorem validation_messages_read_the_sum (e : Engine)
    (kk aa bb ss salt aa' bb' ss' salt' mm mm' : Value) (user user' : string) :
  (Int aa + Int salt + Int bb = Int aa' + Int salt' + Int bb' ->
     Standard.CalcM e kk aa bb ss salt user
     = Standard.CalcM e kk aa' bb' ss' salt' user')
  /\ (Int aa + Int mm = Int aa' + Int mm' ->
        Standard.CalcM2 e kk aa mm ss = Standard.CalcM2 e kk aa' mm' ss')
  /\ Standard.CalcM e kk aa bb ss salt user
     = Standard.CalcM e kk bb aa ss salt user.
Proof.
  unfold Standard.CalcM, Standard.CalcM2. repeat split.
  - intros E. now rewrite E.
  - intros E. now rewrite E.
  - replace (Int bb + Int salt + Int aa) with (Int aa + Int salt + Int bb)
      by lia.
    reflexivity.
Qed.

Lemma validation_messages_read_the_sum_witness :
  Int (valueOfInt 17) + Int (valueOfInt 4) + Int (valueOfInt 21)
  = Int (valueOfInt 2) + Int (valueOfInt 30) + Int (valueOfInt 10)
  /\ Standard.CalcM engine23 (valueOfInt 9) (valueOfInt 17) (valueOfInt 21)
       (valueOfInt 20) (valueOfInt 4) "alice"
     = Standard.CalcM engine23 (valueOfInt 9) (valueOfInt 2) (valueOfInt 10)
         (valueOfInt 3) (valueOfInt 30) "bob".
Proof.
  split; [reflexivity|].
  apply (proj1 (validation_messages_read_the_sum engine23 (valueOfInt 9)
                  (valueOfInt 17) (valueOfInt 21) (valueOfInt 20)
                  (valueOfInt 4) (valueOfInt 2) (valueOfInt 10)
                  (valueOfInt 3) (valueOfInt 30) (valueOfInt 0)
                  (valueOfInt 0) "alice" "bob")).
  reflexivity.
Defined.

End StandardVariant.

(* ================================================================== *)
(** * Outcomes of the engine's operations                               *)
(* ================================================================== *)

Section EngineOutcomes.

Import Engine.

Lemma Exp_nonneg_exponent_some (x y m : Z) :
  0 <= y -> exists r, Big.Exp x y m = Some r.
Proof.
  intros Hy. destruct (Z.eq_dec m 0) as [->|Hm].
  - apply Exp_zero_modulus.
  - rewrite Exp_nonneg_exponent by assumption. eauto.
Qed.

Lemma modExp_returns (e : Engine) (a b : Value) :
  0 <= Int b -> exists r, modExp e a b = Return r /\ 0 <= Int r.
Proof.
  intros Hb. unfold modExp.
  destruct (Exp_nonneg_exponent_some (Int a) (Int b) (Int (N e)) Hb)
    as [r ->].
  rewrite New_valueOfInt. eexists. split; [reflexivity|].
  rewrite Int_valueOfInt. lia.
Qed.

(** X21 (the engine on any modulus): with exponents that are not
    negative, CalcV, CalcA, CalcClientS and CalcServerS return a Value
    whatever the modulus is, 0 included; CalcB returns a Value for every
    modulus but 0, where it panics with a division by zero.  None of them
    ends in [log.Fatal]. *)
Theorem engine_outcomes (e : Engine) (x a b u v aa bb : Value) :
  0 <= Int x -> 0 <= Int a -> 0 <= Int b -> 0 <= Int u ->
  (exists r, CalcV e x = Return r)
  /\ (exists r, CalcA e a = Return r)
  /\ (exists r, CalcClientS e bb a x u = Return r)
  /\ (exists r, CalcServerS e aa b v u = Return r)
  /\ (Int (N e) <> 0 -> exists r, CalcB e b v = Return r)
  /\ (Int (N e) = 0 -> CalcB e b v = Panic DivisionByZero).
Proof.
  intros Hx Ha Hb Hu.
  split; [destruct (modExp_returns e (G e) x Hx) as (r & Hr & _); eauto|].
  split; [destruct (modExp_returns e (G e) a Ha) as (r & Hr & _); eauto|].
  split.
  { unfold CalcClientS.
    destruct (modExp_returns e (G e) x Hx) as (gx & -> & _). cbn [bind].
    rewrite !New_valueOfInt. cbn [bind].
    destruct (modExp_returns e
                (valueOfInt (Int bb - Int (k e) * Int gx))
                (valueOfInt (Int a + Int u * Int x))) as (r & Hr & _);
      [rewrite Int_valueOfInt; lia | eauto]. }
  split.
  { unfold CalcServerS.
    destruct (modExp_returns e v u Hu) as (vu & -> & _). cbn [bind].
    rewrite New_valueOfInt. cbn [bind].
    destruct (modExp_returns e (valueOfInt (Int aa * Int vu)) b Hb)
      as (r & Hr & _). eauto. }
  unfold CalcB, Big.Mod.
  destruct (modExp_returns e (G e) b Hb) as (gb & -> & _). cbn [bind].
  split; intros HN.
  - replace (Int (N e) =? 0) with false by (symmetry; now apply Z.eqb_neq).
    cbn [bind]. rewrite New_valueOfInt. eauto.
  - rewrite HN. reflexivity.
Qed.

Lemma engine_outcomes_witness :
  (exists r, CalcV engine23 (valueOfInt 6) = Return r)
  /\ (exists r, CalcA engine23 (valueOfInt 7) = Return r)
  /\ (exists r, CalcClientS engine23 (valueOfInt 21) (valueOfInt 7)
                  (valueOfInt 6) (valueOfInt 38) = Return r)
  /\ (exists r, CalcServerS engine23 (valueOfInt 17) (valueOfInt 4)
                  (valueOfInt 8) (valueOfInt 38) = Return r)
  /\ (Int (N engine23) <> 0 ->
      exists r, CalcB engine23 (valueOfInt 4) (valueOfInt 8) = Return r)
  /\ (Int (N engine23) = 0 ->
      CalcB engine23 (valueOfInt 4) (valueOfInt 8) = Panic DivisionByZero).
Proof.
  apply (engine_outcomes engine23 (valueOfInt 6) (valueOfInt 7)
           (valueOfInt 4) (valueOfInt 38) (valueOfInt 8) (valueOfInt 17)
           (valueOfInt 21)); vm_compute; discriminate.
Defined.

End EngineOutcomes.

(* ================================================================== *)
(** * The engine on the second Value                                    *)
(* ================================================================== *)

Section EngineOnSecondValue.

Import EngineAlt.

Variable e : Engine.
Hypothesis HN : 0 < ValueAlt.int (N e).

Lemma EngineAlt_New_int (z : Z) :
  ValueAlt.int
    {| ValueAlt.bytes := Big.Bytes z;
       ValueAlt.hex := Hex.EncodeToString (Big.Bytes z);
       ValueAlt.int := z |} = z.
Proof. reflexivity. Qed.

Lemma EngineAlt_modExp_value (a b : ValueAlt.Value) :
  0 <= ValueAlt.int b ->
  exists r,
    modExp e a b = Return r
    /\ ValueAlt.int r
       = ValueAlt.int a ^ ValueAlt.int b mod ValueAlt.int (N e)
    /\ r = {| ValueAlt.bytes := Big.Bytes (ValueAlt.int r);
              ValueAlt.hex := Hex.EncodeToString (Big.Bytes (ValueAlt.int r));
              ValueAlt.int := ValueAlt.int r |}.
Proof.
  intros Hb. unfold modExp.
  rewrite Exp_nonneg_exponent, ValueAlt_New_int by lia.
  rewrite (Z.abs_eq (ValueAlt.int (N e))) by lia.
  eexists. repeat split.
Qed.

(** X22 (the premaster secrets on the second Value): when the Values are
    those of the second [New], which keeps the sign of an integer, then for
    N > 0 and x, a, b, u not negative, with v = CalcV(x), A = CalcA(a) and
    B = CalcB(b, v), CalcClientS(B, a, x, u) and CalcServerS(A, b, v, u)
    return the same Value, G^(b * (a + u * x)) mod N, also when
    B - k * v is negative. *)
Theorem EngineAlt_premaster_agree (x a b u v A B : ValueAlt.Value) :
  0 <= ValueAlt.int x -> 0 <= ValueAlt.int a ->
  0 <= ValueAlt.int b -> 0 <= ValueAlt.int u ->
  CalcV e x = Return v -> CalcA e a = Return A ->
  CalcB e b v = Return B ->
  exists S,
    CalcClientS e B a x u = Return S
    /\ CalcServerS e A b v u = Return S
    /\ ValueAlt.int S
       = ValueAlt.int (G e)
         ^ (ValueAlt.int b * (ValueAlt.int a + ValueAlt.int u * ValueAlt.int x))
         mod ValueAlt.int (N e).
Proof.
  intros Hx Ha Hb Hu HV HA HB.
  assert (HE : 0 <= ValueAlt.int a + ValueAlt.int u * ValueAlt.int x) by nia.
  unfold CalcV in HV. unfold CalcA in HA.
  destruct (EngineAlt_modExp_value (G e) x Hx) as (v0 & Hv0 & Ev & _).
  rewrite Hv0 in HV. injection HV as <-.
  destruct (EngineAlt_modExp_value (G e) a Ha) as (A0 & HA0 & EA & _).
  rewrite HA0 in HA. injection HA as <-.
  unfold CalcB in HB.
  destruct (EngineAlt_modExp_value (G e) b Hb) as (gb & Hgb & Egb & _).
  rewrite Hgb in HB. cbn [bind] in HB. unfold Big.Mod in HB.
  replace (ValueAlt.int (N e) =? 0) with false in HB
    by (symmetry; apply Z.eqb_neq; lia).
  cbn [bind] in HB. rewrite ValueAlt_New_int in HB. injection HB as <-.
  rewrite (Z.abs_eq (ValueAlt.int (N e))) by lia.
  unfold CalcClientS, CalcServerS.
  rewrite Hv0. cbn [bind]. rewrite !ValueAlt_New_int. cbn [bind].
  destruct (EngineAlt_modExp_value v0 u Hu) as (vu & -> & Evu & _).
  cbn [bind]. rewrite ValueAlt_New_int. cbn [bind].
  match goal with
  | |- context [modExp e ?l ?r = Return _ /\ modExp e ?l' b = Return _ /\ _] =>
      destruct (EngineAlt_modExp_value l r HE) as (S1 & -> & E1 & R1);
      destruct (EngineAlt_modExp_value l' b Hb) as (S2 & -> & E2 & R2)
  end.
  cbn [ValueAlt.int] in E1, E2.
  rewrite Egb, Ev, client_power in E1 by assumption.
  rewrite Evu, EA, Ev, server_power in E2 by assumption.
  exists S1. split; [reflexivity|]. split; [|exact E1].
  f_equal. rewrite R1, R2. now rewrite E1, E2.
Qed.

End EngineOnSecondValue.

Lemma EngineAlt_premaster_agree_witness :
  exists S,
    EngineAlt.CalcClientS engineAlt23 (altOfInt 21) (altOfInt 7)
      (altOfInt 6) (altOfInt 38) = Return S
    /\ EngineAlt.CalcServerS engineAlt23 (altOfInt 17) (altOfInt 4)
         (altOfInt 8) (altOfInt 38) = Return S
    /\ ValueAlt.int S
       = ValueAlt.int (EngineAlt.G engineAlt23)
         ^ (ValueAlt.int (altOfInt 4)
            * (ValueAlt.int (altOfInt 7)
               + ValueAlt.int (altOfInt 38) * ValueAlt.int (altOfInt 6)))
         mod ValueAlt.int (EngineAlt.N engineAlt23).
Proof.
  apply (EngineAlt_premaster_agree engineAlt23);
    try reflexivity; vm_compute; discriminate.
Defined.
